(** * brawlstars.js: the cached-fetch layer of [Client]

    A shallow embedding of [Client._fetch] and of the accessors built on
    it (Client.ts), together with the parts of the JavaScript runtime and
    of the npm dependencies the method calls into: truthiness, [parseInt],
    [String.prototype.startsWith]/[slice], [querystring.stringify],
    [Response.ok] of node-fetch and the [get]/[set] pair of node-cache.

    Conventions.
    - A JavaScript string is a [string]: a sequence of code units, here
      restricted to the Latin-1 range (one [ascii] per code unit).
    - A JavaScript number is [NaN] or an integer [Num z]; the embedding
      agrees with IEEE doubles for [|z| <= 2^53], and the theorems that
      speak about a parsed value carry that bound.
    - A JavaScript object is the list of its properties in insertion
      order, which is the order of [Object.keys] for names that are not
      array indices.
    - Mutable state (the cache owned by the client) is passed explicitly;
      network requests and cache stores are recorded in an event log. *)

From Stdlib Require Import ZArith Ascii String List Lia Bool.
From stdpp Require Import gmap strings list fin_maps pretty.

Local Open Scope Z_scope.

(** ** JavaScript values *)

Module JS.

Inductive number : Type :=
| NaN
| Num (z : Z).

#[warnings="-register-all"]
Inductive value : Type :=
| VUndefined
| VNull
| VBool (b : bool)
| VNum (n : number)
| VStr (s : string)
| VArr (elems : list value)
| VObj (fields : list (string * value)).

(** ToBoolean on numbers: [NaN] and zero are falsy. *)
Definition truthy_number (n : number) : bool :=
  match n with
  | NaN => false
  | Num z => negb (z =? 0)
  end.

(** ToBoolean on strings: only the empty string is falsy. *)
Definition truthy_string (s : string) : bool :=
  match s with
  | EmptyString => false
  | String _ _ => true
  end.

(** ToBoolean: every object, hence every array (also the empty one), is
    truthy. *)
Definition truthy (v : value) : bool :=
  match v with
  | VUndefined | VNull => false
  | VBool b => b
  | VNum n => truthy_number n
  | VStr s => truthy_string s
  | VArr _ | VObj _ => true
  end.

(** *** Objects as insertion-ordered property lists *)

Definition obj : Type := list (string * value).

(** [o[k]]: the property's value, [undefined] when there is none. *)
Fixpoint obj_get (o : obj) (k : string) : value :=
  match o with
  | [] => VUndefined
  | (k', v) :: o' => if String.eqb k' k then v else obj_get o' k
  end.

Fixpoint obj_has (o : obj) (k : string) : bool :=
  match o with
  | [] => false
  | (k', _) :: o' => String.eqb k' k || obj_has o' k
  end.

(** [o[k] = v]: an existing property keeps its position, a new one is
    appended. *)
Fixpoint obj_set (o : obj) (k : string) (v : value) : obj :=
  match o with
  | [] => [(k, v)]
  | (k', v') :: o' =>
      if String.eqb k' k then (k', v) :: o' else (k', v') :: obj_set o' k v
  end.

(** [Object.keys] in insertion order (the order of non-index keys). *)
Definition obj_keys (o : obj) : list string := map fst o.

(** *** Strings *)

Definition code (c : ascii) : Z := Z.of_N (N_of_ascii c).

(** [s.startsWith(p)] *)
Definition startsWith (s p : string) : bool := String.prefix p s.

(** [s.slice(n)] for [0 <= n]. *)
Fixpoint slice (n : nat) (s : string) : string :=
  match n, s with
  | O, _ => s
  | S n', String _ s' => slice n' s'
  | S _, EmptyString => EmptyString
  end.

(** *** parseInt with the radix left out *)

(** WhiteSpace and LineTerminator code units of the Latin-1 range. *)
Definition is_js_space (c : ascii) : bool :=
  let n := code c in
  ((9 <=? n) && (n <=? 13)) || (n =? 32) || (n =? 160).

Fixpoint trim_start (s : string) : string :=
  match s with
  | String c s' => if is_js_space c then trim_start s' else s
  | EmptyString => EmptyString
  end.

(** The value of a code unit as a digit of the given radix. *)
Definition digit_of (radix : Z) (c : ascii) : option Z :=
  let n := code c in
  let d :=
    if (48 <=? n) && (n <=? 57) then Some (n - 48)
    else if (97 <=? n) && (n <=? 122) then Some (n - 87)
    else if (65 <=? n) && (n <=? 90) then Some (n - 55)
    else None in
  match d with
  | Some v => if v <? radix then Some v else None
  | None => None
  end.

(** The longest prefix of radix digits, read as an integer; [None] when
    that prefix is empty and nothing was read before. *)
Fixpoint parse_digits (radix : Z) (s : string) (acc : option Z) : option Z :=
  match s with
  | EmptyString => acc
  | String c s' =>
      match digit_of radix c with
      | Some d => parse_digits radix s' (Some (radix * default 0 acc + d))
      | None => acc
      end
  end.

Definition strip_sign (s : string) : Z * string :=
  match s with
  | String "-" s' => (-1, s')
  | String "+" s' => (1, s')
  | _ => (1, s)
  end.

Definition strip_hex_prefix (s : string) : Z * string :=
  match s with
  | String "0" (String "x" s') => (16, s')
  | String "0" (String "X" s') => (16, s')
  | _ => (10, s)
  end.

Definition parseInt (s : string) : number :=
  let '(sign, s1) := strip_sign (trim_start s) in
  let '(radix, s2) := strip_hex_prefix s1 in
  match parse_digits radix s2 None with
  | None => NaN
  | Some m => Num (sign * m)
  end.

End JS.

Export JS.

(** ** querystring.stringify (Node.js) *)

Module QueryString.

Definition hex_digit (n : Z) : ascii :=
  ascii_of_N (Z.to_N (if n <? 10 then 48 + n else 55 + n)).

(** [hexTable[n]]: a percent sign and two upper-case hexadecimal digits. *)
Definition hexTable (n : Z) : string :=
  String "%" (String (hex_digit (n / 16)) (String (hex_digit (n mod 16)) "")).

(** The code units left as they are: letters, digits and [-_.!~*'()]. *)
Definition noEscape (n : Z) : bool :=
  ((48 <=? n) && (n <=? 57)) || ((65 <=? n) && (n <=? 90)) ||
  ((97 <=? n) && (n <=? 122)) ||
  (n =? 33) || ((39 <=? n) && (n <=? 42)) || (n =? 45) || (n =? 46) ||
  (n =? 95) || (n =? 126).

(** [encodeStr]: a code unit below 0x80 is copied or becomes one escape, a
    code unit from 0x80 to 0xFF becomes the two escapes of its UTF-8
    encoding. *)
Fixpoint encodeStr (s : string) : string :=
  match s with
  | EmptyString => ""
  | String c s' =>
      let n := code c in
      (if n <? 128 then
         if noEscape n then String c "" else hexTable n
       else
         hexTable (Z.lor 192 (Z.shiftr n 6)) +:+
         hexTable (Z.lor 128 (Z.land n 63)))
      +:+ encodeStr s'
  end.

Definition qsEscape (s : string) : string := encodeStr s.

(** [encodeStringified(v, qsEscape)]; a number is written in decimal, as
    JavaScript does below 1e21. *)
Definition encodeStringified (v : value) : string :=
  match v with
  | VStr s => if truthy_string s then qsEscape s else ""
  | VNum (Num z) => pretty z
  | VBool b => if b then "true" else "false"
  | _ => ""
  end.

(** The inner loop over the elements of an array value. *)
Fixpoint stringify_array (ks : string) (elems : list value) (first : bool)
    (fields : string) : string :=
  match elems with
  | [] => fields
  | e :: elems' =>
      let fields := if first then fields else fields +:+ "&" in
      stringify_array ks elems' false (fields +:+ ks +:+ encodeStringified e)
  end.

(** The loop over [Object.keys(obj)], [fields] being the accumulator. *)
Fixpoint stringify_loop (o : obj) (keys : list string) (fields : string)
    : string :=
  match keys with
  | [] => fields
  | k :: keys' =>
      let v := obj_get o k in
      let ks := encodeStringified (VStr k) +:+ "=" in
      match v with
      | VArr [] => stringify_loop o keys' fields
      | VArr elems =>
          let fields :=
            if truthy_string fields then fields +:+ "&" else fields in
          stringify_loop o keys' (stringify_array ks elems true fields)
      | _ =>
          let fields :=
            if truthy_string fields then fields +:+ "&" else fields in
          stringify_loop o keys' (fields +:+ ks +:+ encodeStringified v)
      end
  end.

Definition stringify (o : obj) : string :=
  stringify_loop o (obj_keys o) "".

End QueryString.

(** ** node-cache

    The client hands [ClientOptions.cacheOptions] to node-cache. Of the
    library's options the embedding carries [deleteOnExpire], the one that
    decides what a lookup does with an entry past its deadline. The others
    stay at their defaults: [stdTTL = 0]; no [maxKeys], so that [set]
    never fails with a full cache; values cloned on the way in and out,
    so that a returned value never aliases the stored one; the periodic
    sweep of [checkperiod], which only removes entries a lookup would
    remove, is left out. Deadlines are computed in integers, as the
    library does as long as they stay within 2^53. *)

Module NodeCache.

Record Options : Type := { deleteOnExpire : bool }.

(** The library's defaults. *)
Definition defaults : Options := {| deleteOnExpire := true |}.

(** A stored entry: the deadline [t] in milliseconds ([0]: no deadline)
    and the value [v]. *)
Record entry : Type := Entry { t : Z; v : value }.

(** A cache: its options and its [data] object. *)
Record Cache : Type := { options : Options; data : gmap string entry }.

(** [new NodeCache(options)] *)
Definition create (o : option Options) : Cache :=
  {| options := default defaults o; data := ∅ |}.

(** The deadline is set and lies before the clock. *)
Definition expired (now : Z) (e : entry) : bool :=
  negb (t e =? 0) && (t e <? now).

(** [_check]: an expired entry is refused, and deleted by the caller,
    only under [deleteOnExpire]; without it the entry stays and is
    served. *)
Definition _check (o : Options) (now : Z) (e : entry) : bool :=
  negb (expired now e && deleteOnExpire o).

(** [_unwrap] *)
Definition _unwrap (e : entry) : value :=
  match v e with
  | VUndefined | VNull => VNull
  | x => x
  end.

(** [_wrap]: the deadline is [now + ttl * 1000]; a zero or missing TTL
    falls back on [stdTTL = 0], no deadline. *)
Definition _wrap (now : Z) (x : value) (ttl : number) : entry :=
  match ttl with
  | Num z => Entry (if z =? 0 then 0 else now + z * 1000) x
  | NaN => Entry 0 x
  end.

(** [get(key)]: the value of an entry that passes [_check], or
    [undefined]; an entry that fails it is deleted. *)
Definition get (now : Z) (key : string) (c : Cache) : value * Cache :=
  match data c !! key with
  | Some e =>
      if _check (options c) now e then (_unwrap e, c)
      else (VUndefined, {| options := options c; data := delete key (data c) |})
  | None => (VUndefined, c)
  end.

(** [set(key, value, ttl)] *)
Definition set (now : Z) (key : string) (x : value) (ttl : number) (c : Cache)
    : Cache :=
  {| options := options c; data := <[key := _wrap now x ttl]> (data c) |}.

End NodeCache.

(** ** node-fetch: requests and responses *)

Record Request : Type := {
  req_url : string;
  req_headers : list (string * string)
}.

(** What [_fetch] reads of a response: the status line, the
    [cache-control] header ([None]: the header is absent) and the result
    of [response.json()] ([None]: the body is not JSON). *)
Record Response : Type := {
  status : Z;
  statusText : string;
  cache_control : option string;
  json : option value
}.

(** [response.ok] *)
Definition ok (r : Response) : bool := (200 <=? status r) && (status r <? 300).

Inductive FetchResult : Type :=
| Rejected (reason : string)
| Resolved (r : Response).

(** ** Errors and effects *)

(** [APIError] is the client's own class. [FetchError] is node-fetch's:
    [reason] names the failure, the system error behind a rejected
    [fetch] or [invalid-json] for a body [response.json()] cannot parse.
    [TypeError] is the runtime's. *)
Inductive error : Type :=
| APIError (text : string) (status : Z)
| FetchError (reason : string)
| TypeError.

Inductive outcome (A : Type) : Type :=
| Return (a : A)
| Throw (e : error).
Arguments Return {A} a.
Arguments Throw {A} e.

Inductive event : Type :=
| NetGet (r : Request)
| CacheSet (key : string) (data : value) (ttl : number).

Definition is_NetGet (e : event) : bool :=
  match e with NetGet _ => true | CacheSet _ _ _ => false end.

Definition is_CacheSet (e : event) : bool :=
  match e with NetGet _ => false | CacheSet _ _ _ => true end.

(** The surroundings of one call: the clock when the cache is read, the
    clock when it is written, and the remote service. *)
Record Env : Type := {
  now_get : Z;
  now_set : Z;
  network : Request -> FetchResult
}.

Record ClientOptions : Type := {
  opt_cache : bool;
  opt_cacheOptions : option NodeCache.Options;
  opt_baseURL : option string
}.

Record Client : Type := {
  token : string;
  cache : option NodeCache.Cache;
  baseURL : string
}.

(** A method of [Client]: it reads and updates [this] and logs what it
    does to the outside. *)
Definition M (A : Type) : Type := Client -> outcome A * Client * list event.

Definition ret {A} (a : A) : M A := fun this => (Return a, this, []).

Definition throw {A} (e : error) : M A := fun this => (Throw e, this, []).

Definition bind {A B} (m : M A) (f : A -> M B) : M B :=
  fun this =>
    match m this with
    | (Return a, this', l) =>
        let '(r, this'', l') := f a this' in (r, this'', l ++ l')
    | (Throw e, this', l) => (Throw e, this', l)
    end.

#[global] Instance M_ret : MRet M := @ret.
#[global] Instance M_bind : MBind M := fun A B f m => bind m f.

Definition self : M Client := fun this => (Return this, this, []).

Module ClientImpl.
Import QueryString.

(** [new Client(token, options)], [options] defaulting to
    [{ cache: true }]. *)
Definition new_Client (tok : string) (options : option ClientOptions) : Client :=
  let options :=
    default {| opt_cache := true; opt_cacheOptions := None;
               opt_baseURL := None |} options in
  {| token := tok;
     cache :=
       if opt_cache options
       then Some (NodeCache.create (opt_cacheOptions options)) else None;
     baseURL := default "https://api.brawlstars.com/v1" (opt_baseURL options) |}.

(** [get authorization()] *)
Definition authorization (this : Client) : string := "Bearer " +:+ token this.

Section Fetch.
Variable env : Env.

(** [this.cache?.get(url)] *)
Definition cache_get (url : string) : M value :=
  fun this =>
    match cache this with
    | Some d =>
        let '(x, d') := NodeCache.get (now_get env) url d in
        (Return x,
         {| token := token this; cache := Some d'; baseURL := baseURL this |},
         [])
    | None => (Return VUndefined, this, [])
    end.

(** [this.cache?.set(url, data, ttl)] *)
Definition cache_set (url : string) (data : value) (ttl : number) : M unit :=
  fun this =>
    match cache this with
    | Some d =>
        (Return tt,
         {| token := token this;
            cache := Some (NodeCache.set (now_set env) url data ttl d);
            baseURL := baseURL this |},
         [CacheSet url data ttl])
    | None => (Return tt, this, [])
    end.

(** [await fetch(url, { headers })] *)
Definition fetch (url : string) (headers : list (string * string)) : M Response :=
  fun this =>
    let rq := {| req_url := url; req_headers := headers |} in
    match network env rq with
    | Resolved r => (Return r, this, [NetGet rq])
    | Rejected why => (Throw (FetchError why), this, [NetGet rq])
    end.

(** [await response.json()]: node-fetch rejects a body that does not
    parse with its [FetchError] of type [invalid-json]. *)
Definition response_json (r : Response) : M value :=
  match json r with
  | Some data => ret data
  | None => throw (FetchError "invalid-json")
  end.

(** The request key: [this.baseURL + path + (query ? "?" + stringify(query) : "")]. *)
Definition request_url (this : Client) (path : string) (query : option obj)
    : string :=
  baseURL this +:+ path +:+
  match query with
  | Some q => "?" +:+ stringify q
  | None => ""
  end.

(** [cache && cache.startsWith("max-age=") ? parseInt(cache.slice(8)) : 0] *)
Definition ttl_of (cache : option string) : number :=
  match cache with
  | Some c =>
      if truthy_string c && startsWith c "max-age=" then parseInt (slice 8 c)
      else Num 0
  | None => Num 0
  end.

(** The [headers] option of the call to [fetch]. *)
Definition request_headers (this : Client) : list (string * string) :=
  [("Authorization", authorization this);
   ("User-Agent", "BrawlStars.js https://github.com/pollen5/brawlstars.js");
   ("Accept", "application/json")].

Definition _fetch (path : string) (query : option obj) : M value :=
  this ← self;
  let url := request_url this path query in
  exists_ ← cache_get url;
  if truthy exists_ then ret exists_ else
  response ← fetch url (request_headers this);
  if negb (ok response) then
    throw (APIError (statusText response) (status response))
  else
  data ← response_json response;
  let cache := cache_control response in
  let ttl := ttl_of cache in
  (if truthy_number ttl then cache_set url data ttl else ret tt);;
  ret data.

End Fetch.

(** *** The accessors *)

Section Accessors.
Variable cleanTag : string -> string.
Variable env : Env.

(** The lines every accessor with cursor parameters starts with: the
    options object (default [{}]) is destructured and [query] is rebuilt,
    [before] first, then [after], then [limit], each only when truthy. *)
Definition cursor_query (options : option obj) : obj :=
  let options := default [] options in
  let before := obj_get options "before" in
  let after := obj_get options "after" in
  let limit := obj_get options "limit" in
  let query : obj := [] in
  let query := if truthy before then obj_set query "before" before else query in
  let query := if truthy after then obj_set query "after" after else query in
  let query := if truthy limit then obj_set query "limit" limit else query in
  query.

(** [res.x3vs3Victories = res["3vs3Victories"]] in strict mode. A named
    property put on an array is not part of the array's elements. *)
Definition rename_3vs3 (res : value) : M value :=
  match res with
  | VObj o =>
      ret (VObj (obj_set o "x3vs3Victories" (obj_get o "3vs3Victories")))
  | VArr elems => ret (VArr elems)
  | _ => throw TypeError
  end.

Definition getPlayer (tag : string) : M value :=
  res ← _fetch env ("/players/%23" +:+ cleanTag tag) None;
  rename_3vs3 res.

Definition getPlayerBattlelog (tag : string) : M value :=
  _fetch env ("/players/%23" +:+ cleanTag tag +:+ "/battlelog") None.

Definition getClub (tag : string) : M value :=
  _fetch env ("/clubs/%23" +:+ cleanTag tag) None.

Definition getPlayerRankings (country : string) (options : option obj)
    : M value :=
  let query := cursor_query options in
  _fetch env ("/rankings/" +:+ country +:+ "/players") (Some query).

Definition getClubRankings (country : string) (options : option obj)
    : M value :=
  let query := cursor_query options in
  _fetch env ("/rankings/" +:+ country +:+ "/clubs") (Some query).

Definition getBrawlerRankings (country brawler : string)
    (options : option obj) : M value :=
  let query := cursor_query options in
  _fetch env ("/rankings/" +:+ country +:+ "/brawlers/" +:+ brawler)
    (Some query).

Definition getClubMembers (tag : string) (options : option obj) : M value :=
  let query := cursor_query options in
  _fetch env ("/clubs/%23" +:+ cleanTag tag +:+ "/members") (Some query).

Definition getBrawlers (options : option obj) : M value :=
  let query := cursor_query options in
  _fetch env "/brawlers" (Some query).

Definition getBrawler (id : string) : M value :=
  _fetch env ("/brawlers/" +:+ id) None.

Definition getMapRotation : M value :=
  _fetch env "/events/rotation" None.

End Accessors.
End ClientImpl.

Module Utils.

(** Modelled from the spec: [cleanTag] of ./utils, a module that is not
    among the sources. The spec has the tag cleaned by stripping a leading
    [#] before the accessor writes its own [%23]. *)
Definition cleanTag (tag : string) : string :=
  match tag with
  | String "#" rest => rest
  | _ => tag
  end.

End Utils.

Import QueryString ClientImpl.

(** * Vocabulary of the properties *)

(** ** Observations on one call *)

Section Observations.
Variable env : Env.

(** What [this.cache?.get(url)] answers, and the client it leaves. *)
Definition cached (url : string) (this : Client) : value :=
  match cache this with
  | Some d => (NodeCache.get (now_get env) url d).1
  | None => VUndefined
  end.

Definition after_get (url : string) (this : Client) : Client :=
  match cache this with
  | Some d =>
      {| token := token this;
         cache := Some (NodeCache.get (now_get env) url d).2;
         baseURL := baseURL this |}
  | None => this
  end.

Definition after_set (url : string) (data : value) (ttl : number)
    (this : Client) : Client :=
  match cache this with
  | Some d =>
      {| token := token this;
         cache := Some (NodeCache.set (now_set env) url data ttl d);
         baseURL := baseURL this |}
  | None => this
  end.

Definition the_request (this : Client) (url : string) : Request :=
  {| req_url := url; req_headers := request_headers this |}.

Definition set_events (this : Client) (url : string) (data : value)
    (ttl : number) : list event :=
  match cache this with
  | Some _ => [CacheSet url data ttl]
  | None => []
  end.

End Observations.

(** The entry the client's cache holds under a key, stale or not. *)
Definition entry_of (this : Client) (key : string) : option NodeCache.entry :=
  match cache this with
  | Some c => NodeCache.data c !! key
  | None => None
  end.

(** The call is answered from the cache: it sends no request. *)
Definition short_circuits (env : Env) (path : string) (query : option obj)
    (this : Client) : Prop :=
  forall rq, ~ In (NetGet rq) (_fetch env path query this).2.

(** The call returns [data] without sending a request. *)
Definition answered_from_cache (env : Env) (path : string)
    (query : option obj) (this : Client) (data : value) : Prop :=
  (_fetch env path query this).1.1 = Return data /\
  short_circuits env path query this.

(** Of two calls of an accessor, one per options object, the second is
    answered from the cache that the first one filled. *)
Definition repeat_is_served (call : Env -> option obj -> M value)
    (options1 options2 : obj) : Prop :=
  forall env1 env2 this data this1 log1 rq r n,
    is_Some (cache this) ->
    call env1 (Some options1) this = (Return data, this1, log1) ->
    In (NetGet rq) log1 -> network env1 rq = Resolved r ->
    ttl_of (cache_control r) = Num n -> 0 < n ->
    truthy data = true ->
    now_get env2 < now_set env1 + n * 1000 ->
    (call env2 (Some options2) this1).1.1 = Return data /\
    forall rq2, ~ In (NetGet rq2) (call env2 (Some options2) this1).2.

(** The cache holds [e] under [url] and a lookup at the time of the call
    accepts it: [e] has not expired, or the cache keeps expired entries. *)
Definition live_entry (env : Env) (this : Client) (url : string)
    (e : NodeCache.entry) : Prop :=
  exists c, cache this = Some c /\ NodeCache.data c !! url = Some e /\
            NodeCache._check (NodeCache.options c) (now_get env) e = true.

(** The response body [data] has been stored under [url] with TTL [n]. *)
Definition stored_under (env : Env) (this' : Client) (log : list event)
    (url : string) (data : value) (n : Z) : Prop :=
  In (CacheSet url data (Num n)) log /\
  entry_of this' url = Some (NodeCache.Entry (now_set env + n * 1000) data).

(** ** Decimal digit runs *)

Definition is_digit (c : ascii) : bool := (48 <=? code c) && (code c <=? 57).

Fixpoint all_digits (s : string) : bool :=
  match s with
  | EmptyString => true
  | String c s' => is_digit c && all_digits s'
  end.

(** The integer a string of decimal digits denotes, by place value. *)
Fixpoint decimal_value (s : string) : Z :=
  match s with
  | EmptyString => 0
  | String c s' =>
      (code c - 48) * 10 ^ Z.of_nat (String.length s') + decimal_value s'
  end.

Definition starts_with_digit (s : string) : bool :=
  match s with
  | EmptyString => false
  | String c _ => is_digit c
  end.

(** The text reads as a hexadecimal literal: a single [0] followed by [x]
    or [X]. *)
Definition hex_marked (ds rest : string) : bool :=
  match ds, rest with
  | String "0" EmptyString, String "x" _ => true
  | String "0" EmptyString, String "X" _ => true
  | _, _ => false
  end.

(** No character of the text is a decimal digit. *)
Fixpoint no_digits (s : string) : bool :=
  match s with
  | EmptyString => true
  | String c s' => negb (is_digit c) && no_digits s'
  end.

(** ** Serialized queries *)

(** The fields, joined by ampersands. *)
Fixpoint join_amp (l : list string) : string :=
  match l with
  | [] => ""
  | [x] => x
  | x :: l' => x +:+ "&" +:+ join_amp l'
  end.

(** What follows the first field: each further field after an ampersand. *)
Fixpoint amp_tail (l : list string) : string :=
  match l with
  | [] => ""
  | x :: l' => "&" +:+ x +:+ amp_tail l'
  end.

(** The field [stringify] writes for a key whose value is no array. *)
Definition field_of (o : obj) (k : string) : string :=
  encodeStringified (VStr k) +:+ "=" +:+ encodeStringified (obj_get o k).

Definition scalar (x : value) : bool :=
  match x with
  | VArr _ => false
  | _ => true
  end.

Definition cursor_keys : list string := ["before"; "after"; "limit"].

(** ** Concrete runs *)

Module Scenario.

Definition client0 : Client := new_Client "token" None.

(** A service that answers every request with [r]; the cache is read at
    [t_get] and written at [t_set]. *)
Definition serve (r : Response) (t_get t_set : Z) : Env :=
  {| now_get := t_get; now_set := t_set; network := fun _ => Resolved r |}.

Definition success (cc : option string) (body : value) : Response :=
  {| status := 200; statusText := "OK"; cache_control := cc;
     json := Some body |}.

Definition not_found : Response :=
  {| status := 404; statusText := "Not Found"; cache_control := None;
     json := None |}.

Definition api (path : string) : string :=
  "https://api.brawlstars.com/v1" +:+ path.

End Scenario.

(** A cache that already holds an entry. *)
Module Warm.

(** A client whose cache holds [payload] under the key of [/brawlers],
    with the deadline 61200. *)
Definition client_with (payload : value) : Client :=
  {| token := "token";
     cache :=
       Some {| NodeCache.options := NodeCache.defaults;
               NodeCache.data :=
                 {[ Scenario.api "/brawlers" := NodeCache.Entry 61200 payload ]} |};
     baseURL := "https://api.brawlstars.com/v1" |}.

Definition env : Env :=
  Scenario.serve (Scenario.success None (VArr [VStr "fresh"])) 2000 2100.

End Warm.

(** ** Readings of the specification that the code does not meet

    Each is stated as the specification words it; the properties section
    refutes it on a concrete run and proves the nearest statement that
    holds. *)

(** A successful fetch with a positive TTL is followed, within the TTL,
    by a call that is answered from the cache with the same value. *)
Definition hit_after_any_store : Prop :=
  forall env1 env2 path query this data this1 log1 rq r n,
    is_Some (cache this) ->
    _fetch env1 path query this = (Return data, this1, log1) ->
    In (NetGet rq) log1 -> network env1 rq = Resolved r ->
    ttl_of (cache_control r) = Num n -> 0 < n ->
    now_get env2 < now_set env1 + n * 1000 ->
    answered_from_cache env2 path query this1 data.

(** Two queries with the same key/value pairs give the same key whatever
    the order in which the pairs were inserted, and the second of two such
    calls is answered from the cache. *)
Definition key_ignores_insertion_order : Prop :=
  (forall this path q1 q2,
     NoDup (obj_keys q1) -> q1 ≡ₚ q2 ->
     request_url this path (Some q1) = request_url this path (Some q2)) /\
  (forall env1 env2 path q1 q2 this data this1 log1 rq r n,
     NoDup (obj_keys q1) -> q1 ≡ₚ q2 ->
     is_Some (cache this) ->
     _fetch env1 path (Some q1) this = (Return data, this1, log1) ->
     In (NetGet rq) log1 -> network env1 rq = Resolved r ->
     ttl_of (cache_control r) = Num n -> 0 < n ->
     now_get env2 < now_set env1 + n * 1000 ->
     answered_from_cache env2 path (Some q2) this1 data).

(** The TTL is an unsigned integer, the one after [max-age=], when the
    header starts with that prefix, and 0 in every other case. *)
Definition ttl_unsigned_after_prefix_else_zero : Prop :=
  forall header : option string,
    match header with
    | Some h =>
        if startsWith h "max-age="
        then exists n, 0 <= n /\ ttl_of header = Num n
        else ttl_of header = Num 0
    | None => ttl_of header = Num 0
    end.

(** The store is only ever invoked with a positive TTL. *)
Definition store_only_positive_ttl : Prop :=
  forall env path query this key data ttl,
    In (CacheSet key data ttl) (_fetch env path query this).2 ->
    exists z, ttl = Num z /\ 0 < z.

(** The lookup short-circuits exactly on truthy payloads, and an empty
    array, zero and [false] are among the payloads it misses. *)
Definition truthy_check_misses_empty_array : Prop :=
  (forall env path query this e,
     live_entry env this (request_url this path query) e ->
     (short_circuits env path query this <-> truthy (NodeCache.v e) = true)) /\
  (forall env path query this e,
     live_entry env this (request_url this path query) e ->
     NodeCache.v e = VArr [] \/ NodeCache.v e = VNum (Num 0) \/
     NodeCache.v e = VBool false ->
     ~ short_circuits env path query this).

(** With no query, or with an empty one, the key is the base URL followed
    by the path and nothing else. *)
Definition bare_url_without_query : Prop :=
  forall this path query,
    query = None \/ query = Some [] ->
    request_url this path query = baseURL this +:+ path.

(** Every cursor parameter that is present is passed on; one that is
    undefined or absent is left out. *)
Definition cursor_passed_when_present : Prop :=
  forall options k, In k cursor_keys ->
    (obj_get options k <> VUndefined ->
     obj_get (cursor_query (Some options)) k = obj_get options k) /\
    (obj_get options k = VUndefined ->
     obj_has (cursor_query (Some options)) k = false).

(** [max-age=], decimal digits, then characters that are not digits: the
    TTL is the value of the digits and the response is cached under it. *)
Definition leading_digits_ttl : Prop :=
  forall ds rest,
    ds <> EmptyString -> all_digits ds = true -> no_digits rest = true ->
    let header := "max-age=" +:+ ds +:+ rest in
    ttl_of (Some header) = Num (decimal_value ds) /\
    forall env path query this res this' log rq r data,
      is_Some (cache this) ->
      _fetch env path query this = (res, this', log) ->
      In (NetGet rq) log -> network env rq = Resolved r ->
      ok r = true -> json r = Some data ->
      cache_control r = Some header ->
      stored_under env this' log (request_url this path query) data
        (decimal_value ds).

(** ** Vocabulary of the further properties *)

(** The client's cache, if it has one, runs with [deleteOnExpire], as it
    does unless the caller's [cacheOptions] turn it off. *)
Definition deletes_expired (this : Client) : Prop :=
  forall c, cache this = Some c ->
    NodeCache.deleteOnExpire (NodeCache.options c) = true.

(** The client's cache, if it has one, keeps expired entries
    ([deleteOnExpire: false]). *)
Definition keeps_expired (this : Client) : Prop :=
  forall c, cache this = Some c ->
    NodeCache.deleteOnExpire (NodeCache.options c) = false.

(** Every key of the client's cache is a URL under the client's base URL. *)
Definition keys_under_base (this : Client) : Prop :=
  forall key e, entry_of this key = Some e ->
    String.prefix (baseURL this) key = true.

(** A character [qsEscape] may write: an unreserved one or the percent
    sign of an escape. *)
Definition escaped_char (c : ascii) : bool :=
  noEscape (code c) || Ascii.eqb c "%".
(** * Properties *)

(** Case analysis on which cursor parameters are truthy. *)
Ltac cursor_cases options :=
  change (cursor_query (Some options)) with
    (let query : obj := [] in
     let query :=
       if truthy (obj_get options "before")
       then obj_set query "before" (obj_get options "before") else query in
     let query :=
       if truthy (obj_get options "after")
       then obj_set query "after" (obj_get options "after") else query in
     if truthy (obj_get options "limit")
     then obj_set query "limit" (obj_get options "limit") else query);
  cbv zeta;
  destruct (truthy (obj_get options "before")) eqn:Hb;
  destruct (truthy (obj_get options "after")) eqn:Ha;
  destruct (truthy (obj_get options "limit")) eqn:Hl.

(** ** How one call of [_fetch] unfolds *)

Section FetchFacts.
Variable env : Env.
Lemma cache_get_eq url this :
  cache_get env url this = (Return (cached env url this), after_get env url this, []).
Proof.
  unfold cache_get, cached, after_get.
  destruct (cache this) as [d|]; [|reflexivity].
  destruct (NodeCache.get (now_get env) url d); reflexivity.
Qed.

Lemma _fetch_hit path query this :
  let url := request_url this path query in
  truthy (cached env url this) = true ->
  _fetch env path query this = (Return (cached env url this), after_get env url this, []).
Proof.
  intros url Hhit. unfold _fetch, mbind, M_bind, bind, self.
  fold url. rewrite cache_get_eq, Hhit. reflexivity.
Qed.

Lemma _fetch_miss path query this :
  let url := request_url this path query in
  let this1 := after_get env url this in
  let rq := the_request this url in
  truthy (cached env url this) = false ->
  _fetch env path query this =
  match network env rq with
  | Rejected why => (Throw (FetchError why), this1, [NetGet rq])
  | Resolved r =>
      if ok r then
        match json r with
        | None => (Throw (FetchError "invalid-json"), this1, [NetGet rq])
        | Some data =>
            let ttl := ttl_of (cache_control r) in
            if truthy_number ttl then
              (Return data, after_set env url data ttl this1,
               NetGet rq :: set_events this1 url data ttl)
            else (Return data, this1, [NetGet rq])
        end
      else (Throw (APIError (statusText r) (status r)), this1, [NetGet rq])
  end.
Proof.
  intros url this1 rq Hmiss. unfold _fetch, mbind, M_bind, bind, self.
  fold url. rewrite cache_get_eq, Hmiss. fold this1.
  unfold fetch. fold (the_request this url). fold rq.
  destruct (network env rq) as [why|r]; [reflexivity|].
  destruct (ok r); simpl; [|reflexivity].
  unfold response_json. destruct (json r) as [data|]; simpl; [|reflexivity].
  destruct (truthy_number (ttl_of (cache_control r))); simpl; [|reflexivity].
  unfold cache_set, after_set, set_events.
  destruct (cache this1); reflexivity.
Qed.

End FetchFacts.

(** ** Decimal digit runs and [parseInt] *)

Lemma digit_of_10_digit c :
  is_digit c = true -> digit_of 10 c = Some (code c - 48).
Proof.
  unfold is_digit, digit_of. intros H.
  apply andb_true_iff in H as [H1 H2]. rewrite H1, H2. simpl.
  apply Z.leb_le in H1, H2.
  destruct (code c - 48 <? 10) eqn:E; [reflexivity|].
  apply Z.ltb_ge in E. lia.
Qed.

Lemma digit_of_10_other c :
  is_digit c = false -> digit_of 10 c = None.
Proof.
  unfold is_digit, digit_of. intros H. rewrite H.
  destruct ((97 <=? code c) && (code c <=? 122)) eqn:E1.
  - apply andb_true_iff in E1 as [E1 _]. apply Z.leb_le in E1.
    destruct (code c - 87 <? 10) eqn:E; [|reflexivity].
    apply Z.ltb_lt in E. lia.
  - destruct ((65 <=? code c) && (code c <=? 90)) eqn:E2; [|reflexivity].
    apply andb_true_iff in E2 as [E2 _]. apply Z.leb_le in E2.
    destruct (code c - 55 <? 10) eqn:E; [|reflexivity].
    apply Z.ltb_lt in E. lia.
Qed.

Lemma digit_of_nonneg radix c d : digit_of radix c = Some d -> 0 <= d.
Proof.
  unfold digit_of.
  destruct ((48 <=? code c) && (code c <=? 57)) eqn:E1.
  { apply andb_true_iff in E1 as [E1 _]. apply Z.leb_le in E1.
    destruct (_ <? radix); intros [= <-]. lia. }
  destruct ((97 <=? code c) && (code c <=? 122)) eqn:E2.
  { apply andb_true_iff in E2 as [E2 _]. apply Z.leb_le in E2.
    destruct (_ <? radix); intros [= <-]. lia. }
  destruct ((65 <=? code c) && (code c <=? 90)) eqn:E3; [|discriminate].
  apply andb_true_iff in E3 as [E3 _]. apply Z.leb_le in E3.
  destruct (_ <? radix); intros [= <-]. lia.
Qed.

(** Reading on from an accumulator: the digits shift it to the left. *)
Lemma parse_digits_run ds rest a :
  all_digits ds = true -> starts_with_digit rest = false ->
  parse_digits 10 (ds +:+ rest) (Some a) =
  Some (a * 10 ^ Z.of_nat (String.length ds) + decimal_value ds).
Proof.
  revert a. induction ds as [|c ds IH]; intros a Hds Hrest.
  - change (EmptyString +:+ rest) with rest.
    cbn [String.length decimal_value Z.of_nat].
    rewrite Z.pow_0_r, Z.mul_1_r, Z.add_0_r.
    destruct rest as [|c rest]; [reflexivity|].
    cbn in Hrest. cbn [parse_digits].
    rewrite (digit_of_10_other c Hrest). reflexivity.
  - cbn in Hds. apply andb_true_iff in Hds as [Hc Hds].
    change (String c ds +:+ rest) with (String c (ds +:+ rest)).
    cbn [parse_digits]. rewrite (digit_of_10_digit c Hc).
    cbn [default]. rewrite IH by assumption.
    f_equal. cbn [String.length decimal_value].
    rewrite Nat2Z.inj_succ, Z.pow_succ_r by lia. unfold id. ring.
Qed.

Lemma parse_digits_nonneg radix s acc m :
  0 < radix -> (forall a, acc = Some a -> 0 <= a) ->
  parse_digits radix s acc = Some m -> 0 <= m.
Proof.
  intros Hr. revert acc. induction s as [|c s IH]; intros acc Hacc; cbn.
  - intros ->. eauto.
  - destruct (digit_of radix c) as [d|] eqn:Hd; [|intros ->; eauto].
    apply IH. intros a [= <-].
    apply digit_of_nonneg in Hd.
    destruct acc as [a0|]; cbn; [specialize (Hacc a0 eq_refl); nia | lia].
Qed.

Lemma is_digit_not_space c : is_digit c = true -> is_js_space c = false.
Proof.
  unfold is_digit, is_js_space. intros H.
  apply andb_true_iff in H as [H1 H2]. apply Z.leb_le in H1, H2.
  repeat (apply orb_false_iff; split).
  - apply andb_false_iff. right. apply Z.leb_gt. lia.
  - apply Z.eqb_neq. lia.
  - apply Z.eqb_neq. lia.
Qed.

(** A text that begins with a decimal digit keeps its first character
    through trimming and sign stripping. *)
Lemma strip_sign_digit c s :
  is_digit c = true ->
  strip_sign (trim_start (String c s)) = (1, String c s).
Proof.
  intros Hc. cbn [trim_start]. rewrite (is_digit_not_space c Hc).
  destruct c as [[] [] [] [] [] [] [] []]; try reflexivity; discriminate Hc.
Qed.

Lemma parseInt_digit_run ds rest :
  ds <> EmptyString -> all_digits ds = true ->
  starts_with_digit rest = false -> hex_marked ds rest = false ->
  parseInt (ds +:+ rest) = Num (decimal_value ds).
Proof.
  intros Hne Hds Hrest Hhex.
  destruct ds as [|c ds]; [congruence|]. clear Hne.
  pose proof Hds as Hds'. cbn in Hds'.
  apply andb_true_iff in Hds' as [Hc Hds'].
  unfold parseInt.
  change (String c ds +:+ rest) with (String c (ds +:+ rest)).
  rewrite (strip_sign_digit c _ Hc).
  assert (strip_hex_prefix (String c (ds +:+ rest)) = (10, String c (ds +:+ rest)))
    as ->.
  { destruct ds as [|c' ds].
    - change (EmptyString +:+ rest) with rest.
      destruct rest as [|r rest]; [destruct c as [[] [] [] [] [] [] [] []]; reflexivity|].
      destruct c as [[] [] [] [] [] [] [] []]; try reflexivity.
      destruct r as [[] [] [] [] [] [] [] []]; try reflexivity; discriminate Hhex.
    - change (String c' ds +:+ rest) with (String c' (ds +:+ rest)).
      cbn in Hds'. apply andb_true_iff in Hds' as [Hc' _].
      destruct c as [[] [] [] [] [] [] [] []]; try reflexivity.
      destruct c' as [[] [] [] [] [] [] [] []]; try reflexivity; discriminate Hc'. }
  cbn [parse_digits]. rewrite (digit_of_10_digit c Hc). cbn [default].
  rewrite parse_digits_run by assumption.
  f_equal. cbn [decimal_value]. lia.
Qed.

(** What [parseInt] reads after a leading digit is never negative. *)
Lemma parseInt_digit_nonneg s z :
  starts_with_digit s = true -> parseInt s = Num z -> 0 <= z.
Proof.
  destruct s as [|c s]; [discriminate|]. cbn [starts_with_digit]. intros Hc.
  unfold parseInt. rewrite (strip_sign_digit c s Hc).
  destruct (strip_hex_prefix (String c s)) as [radix s2] eqn:Hx.
  assert (0 < radix) as Hr.
  { unfold strip_hex_prefix in Hx.
    repeat match type of Hx with
           | context [match ?x with _ => _ end] => destruct x
           end; injection Hx as <- _; lia. }
  destruct (parse_digits radix s2 None) as [m|] eqn:Hm; [|discriminate].
  intros [= <-]. apply parse_digits_nonneg in Hm; [lia|exact Hr|discriminate].
Qed.

Lemma hex_marked_inv ds rest : hex_marked ds rest = true -> decimal_value ds = 0.
Proof.
  destruct ds as [|c [|c' ds]]; try discriminate.
  - destruct c as [[] [] [] [] [] [] [] []]; try discriminate. reflexivity.
  - destruct c as [[] [] [] [] [] [] [] []]; discriminate.
Qed.

(** ** What a call leaves in the cache *)

Section LogFacts.
Variable env : Env.

Lemma after_get_entry url this key :
  entry_of this key = None -> entry_of (after_get env url this) key = None.
Proof.
  unfold entry_of, after_get, NodeCache.get.
  destruct (cache this) as [d|] eqn:Hd; [|now rewrite Hd].
  cbn [cache]. intros Hk.
  destruct (NodeCache.data d !! url) as [e|]; [|exact Hk].
  destruct (NodeCache._check _ (now_get env) e); [exact Hk|].
  cbn. apply lookup_delete_None. now right.
Qed.

Lemma after_get_baseURL url this :
  baseURL (after_get env url this) = baseURL this.
Proof. unfold after_get. now destruct (cache this). Qed.

(** A logged request tells that the lookup missed, and which request it
    was. *)
Lemma _fetch_log_inv path query this res this' log rq :
  _fetch env path query this = (res, this', log) ->
  In (NetGet rq) log ->
  truthy (cached env (request_url this path query) this) = false /\
  rq = the_request this (request_url this path query).
Proof.
  intros Hrun Hin.
  destruct (truthy (cached env (request_url this path query) this)) eqn:Hc.
  - rewrite _fetch_hit in Hrun by exact Hc.
    injection Hrun as _ _ <-. destruct Hin.
  - split; [reflexivity|].
    rewrite _fetch_miss in Hrun by exact Hc.
    assert (forall l, In (NetGet rq)
              (NetGet (the_request this (request_url this path query)) :: l) ->
            (forall e, In e l -> is_NetGet e = false) ->
            rq = the_request this (request_url this path query)) as Hhead.
    { intros l [Heq|Hl] Hno; [congruence|]. now apply Hno in Hl. }
    destruct (network env _) as [why|r].
    { injection Hrun as _ _ <-. apply (Hhead [] Hin). intros e []. }
    destruct (ok r).
    2:{ injection Hrun as _ _ <-. apply (Hhead [] Hin). intros e []. }
    destruct (json r) as [data|].
    2:{ injection Hrun as _ _ <-. apply (Hhead [] Hin). intros e []. }
    cbv zeta in Hrun.
    destruct (truthy_number (ttl_of (cache_control r))).
    2:{ injection Hrun as _ _ <-. apply (Hhead [] Hin). intros e []. }
    injection Hrun as _ _ <-. apply (Hhead _ Hin).
    unfold set_events.
    destruct (cache _); [intros e [<-|[]]; reflexivity | intros e []].
Qed.

End LogFacts.

(** ** The TTL read off the [Cache-Control] header *)

Lemma ttl_of_max_age rest : ttl_of (Some ("max-age=" +:+ rest)) = parseInt rest.
Proof. destruct rest; reflexivity. Qed.

Lemma ttl_of_other h : startsWith h "max-age=" = false -> ttl_of (Some h) = Num 0.
Proof.
  intros H. unfold ttl_of. rewrite H. now rewrite andb_false_r.
Qed.

Lemma truthy_number_inv ttl :
  truthy_number ttl = true -> exists z, ttl = Num z /\ z <> 0.
Proof.
  destruct ttl as [|z]; [discriminate|]. cbn. intros H.
  exists z. split; [reflexivity|]. intros ->. discriminate H.
Qed.

Section StoreFacts.
Variable env : Env.

(** A logged store tells the whole successful path that led to it. *)
Lemma _fetch_set_inv path query this res this' log key data ttl :
  _fetch env path query this = (res, this', log) ->
  In (CacheSet key data ttl) log ->
  let url := request_url this path query in
  exists r,
    network env (the_request this url) = Resolved r /\ ok r = true /\
    json r = Some data /\ ttl = ttl_of (cache_control r) /\
    truthy_number ttl = true /\ key = url /\ res = Return data /\
    In (NetGet (the_request this url)) log.
Proof.
  intros Hrun Hin url.
  destruct (truthy (cached env url this)) eqn:Hc.
  { rewrite _fetch_hit in Hrun by exact Hc.
    injection Hrun as _ _ <-. destruct Hin. }
  rewrite _fetch_miss in Hrun by exact Hc. fold url in Hrun.
  destruct (network env (the_request this url)) as [why|r].
  { injection Hrun as _ _ <-. destruct Hin as [Heq|[]]. discriminate Heq. }
  exists r. destruct (ok r).
  2:{ injection Hrun as _ _ <-. destruct Hin as [Heq|[]]. discriminate Heq. }
  destruct (json r) as [body|].
  2:{ injection Hrun as _ _ <-. destruct Hin as [Heq|[]]. discriminate Heq. }
  cbv zeta in Hrun.
  destruct (truthy_number (ttl_of (cache_control r))) eqn:Httl.
  2:{ injection Hrun as _ _ <-. destruct Hin as [Heq|[]]. discriminate Heq. }
  injection Hrun as <- <- <-.
  destruct Hin as [Heq|Hin]; [discriminate Heq|].
  unfold set_events in Hin.
  destruct (cache (after_get env url this)); [|destruct Hin].
  destruct Hin as [Heq|[]]. injection Heq as <- <- <-.
  repeat split; try reflexivity; try assumption. now left.
Qed.

(** On a caching client, a miss answered by a well-formed response with a
    truthy TTL stores the decoded body under the request key. *)
Lemma _fetch_stores path query this r data n :
  let url := request_url this path query in
  is_Some (cache this) ->
  truthy (cached env url this) = false ->
  network env (the_request this url) = Resolved r ->
  ok r = true -> json r = Some data ->
  ttl_of (cache_control r) = Num n -> n <> 0 ->
  exists this',
    _fetch env path query this =
      (Return data, this', [NetGet (the_request this url); CacheSet url data (Num n)]) /\
    entry_of this' url = Some (NodeCache.Entry (now_set env + n * 1000) data) /\
    baseURL this' = baseURL this.
Proof.
  intros url [d Hd] Hmiss Hnet Hok Hjson Httl Hn.
  exists (after_set env url data (Num n) (after_get env url this)).
  rewrite _fetch_miss by exact Hmiss. fold url.
  rewrite Hnet, Hok, Hjson. cbv zeta. rewrite Httl.
  assert (truthy_number (Num n) = true) as ->.
  { cbn. apply negb_true_iff, Z.eqb_neq, Hn. }
  assert (exists d1, cache (after_get env url this) = Some d1) as [d1 Hd1].
  { unfold after_get. rewrite Hd. eauto. }
  unfold set_events, after_set, entry_of. rewrite Hd1. cbn [cache baseURL].
  split; [reflexivity|]. split.
  - unfold NodeCache.set, NodeCache._wrap. cbn [NodeCache.data].
    rewrite lookup_insert_eq.
    apply Z.eqb_neq in Hn. now rewrite Hn.
  - apply after_get_baseURL.
Qed.

End StoreFacts.

(** ** The cache lookup *)

Section LookupFacts.
Variable env : Env.

Lemma truthy_unwrap e : truthy (NodeCache._unwrap e) = truthy (NodeCache.v e).
Proof. unfold NodeCache._unwrap. now destruct (NodeCache.v e). Qed.

Lemma unwrap_truthy e :
  truthy (NodeCache.v e) = true -> NodeCache._unwrap e = NodeCache.v e.
Proof. unfold NodeCache._unwrap. now destruct (NodeCache.v e). Qed.

Lemma cached_live this url e :
  live_entry env this url e -> cached env url this = NodeCache._unwrap e.
Proof.
  intros (d & Hd & He & Hlive). unfold cached, NodeCache.get.
  now rewrite Hd, He, Hlive.
Qed.

Lemma request_url_baseURL this this' path query :
  baseURL this' = baseURL this ->
  request_url this' path query = request_url this path query.
Proof. unfold request_url. now intros ->. Qed.

(** A truthy lookup answers the call, with an empty log. *)
Lemma hit_short_circuits path query this :
  truthy (cached env (request_url this path query) this) = true ->
  answered_from_cache env path query this
    (cached env (request_url this path query) this).
Proof.
  intros Hhit. unfold answered_from_cache, short_circuits.
  rewrite _fetch_hit by exact Hhit. split; [reflexivity|]. intros rq [].
Qed.

(** A falsy lookup is followed by a request. *)
Lemma miss_requests path query this :
  truthy (cached env (request_url this path query) this) = false ->
  In (NetGet (the_request this (request_url this path query)))
     (_fetch env path query this).2.
Proof.
  intros Hmiss. rewrite _fetch_miss by exact Hmiss.
  destruct (network env _) as [why|r]; [now left|].
  destruct (ok r); [|now left].
  destruct (json r); [|now left].
  cbv zeta. destruct (truthy_number _); now left.
Qed.

Lemma live_entry_decides path query this e :
  live_entry env this (request_url this path query) e ->
  short_circuits env path query this <-> truthy (NodeCache.v e) = true.
Proof.
  intros Hlive. pose proof (cached_live _ _ _ Hlive) as Hc.
  split.
  - intros Hshort.
    destruct (truthy (NodeCache.v e)) eqn:Ht; [reflexivity|].
    exfalso. eapply Hshort, miss_requests.
    now rewrite Hc, truthy_unwrap.
  - intros Ht. apply hit_short_circuits. now rewrite Hc, truthy_unwrap.
Qed.

(** What a successful, logged first call must have received. *)
Lemma _fetch_returned_inv path query this data this1 log1 rq r :
  _fetch env path query this = (Return data, this1, log1) ->
  In (NetGet rq) log1 -> network env rq = Resolved r ->
  ok r = true /\ json r = Some data.
Proof.
  intros Hrun Hin Hnet.
  destruct (_fetch_log_inv env path query this _ _ _ rq Hrun Hin) as [Hmiss ->].
  rewrite _fetch_miss in Hrun by exact Hmiss. rewrite Hnet in Hrun.
  destruct (ok r); [|discriminate Hrun]. split; [reflexivity|].
  destruct (json r) as [body|]; [|discriminate Hrun].
  cbv zeta in Hrun. destruct (truthy_number _); now injection Hrun as <- _ _.
Qed.

End LookupFacts.

(** A successful call that went to the network and read a non-zero TTL
    leaves the decoded body in the cache, under the request key and with
    the deadline [now + ttl * 1000]. *)
Lemma successful_call_stores env path query this data this1 log1 rq r n :
  is_Some (cache this) ->
  _fetch env path query this = (Return data, this1, log1) ->
  In (NetGet rq) log1 -> network env rq = Resolved r ->
  ttl_of (cache_control r) = Num n -> n <> 0 ->
  entry_of this1 (request_url this path query) =
    Some (NodeCache.Entry (now_set env + n * 1000) data) /\
  baseURL this1 = baseURL this.
Proof.
  intros Hcache Hrun Hin Hnet Httl Hn.
  destruct (_fetch_returned_inv env path query this data this1 log1 rq r
              Hrun Hin Hnet) as [Hok Hjson].
  destruct (_fetch_log_inv env path query this _ _ _ rq Hrun Hin)
    as [Hmiss ->].
  destruct (_fetch_stores env path query this r data n Hcache Hmiss Hnet
              Hok Hjson Httl Hn) as (this' & Hrun' & Hentry & Hbase).
  rewrite Hrun' in Hrun. injection Hrun as <- _. now split.
Qed.

(** An entry with a truthy payload answers every call made up to its
    deadline. *)
Lemma truthy_entry_answers env path query this t data :
  entry_of this (request_url this path query) = Some (NodeCache.Entry t data) ->
  now_get env <= t -> truthy data = true ->
  answered_from_cache env path query this data.
Proof.
  intros Hentry Hnow Hdata.
  set (e := NodeCache.Entry t data) in *.
  assert (live_entry env this (request_url this path query) e) as Hlive.
  { unfold entry_of in Hentry.
    destruct (cache this) as [d|] eqn:Hd; [|discriminate Hentry].
    exists d. split; [exact Hd|]. split; [exact Hentry|].
    unfold NodeCache._check, NodeCache.expired. cbn [NodeCache.t e].
    apply negb_true_iff, andb_false_iff. left.
    apply andb_false_iff. right. apply Z.ltb_ge. lia. }
  pose proof (hit_short_circuits env path query this) as Hhit.
  rewrite (cached_live env _ _ _ Hlive) in Hhit.
  rewrite (unwrap_truthy e Hdata) in Hhit. apply Hhit. exact Hdata.
Qed.

(** ** Appending strings *)

Lemma append_empty_r s : s +:+ "" = s.
Proof.
  induction s as [|c s IH]; [reflexivity|].
  change (String c s +:+ "") with (String c (s +:+ "")). now rewrite IH.
Qed.

Lemma append_assoc s t u : (s +:+ t) +:+ u = s +:+ t +:+ u.
Proof.
  induction s as [|c s IH]; [reflexivity|].
  change ((String c s +:+ t) +:+ u) with (String c ((s +:+ t) +:+ u)).
  now rewrite IH.
Qed.

(** ** [stringify] and the cursor query *)

Lemma join_amp_cons x l : join_amp (x :: l) = x +:+ amp_tail l.
Proof.
  revert x. induction l as [|y l IH]; intros x.
  - cbn [join_amp amp_tail]. now rewrite append_empty_r.
  - change (join_amp (x :: y :: l)) with (x +:+ "&" +:+ join_amp (y :: l)).
    now rewrite IH.
Qed.

Lemma truthy_string_append s t :
  truthy_string (s +:+ t) = truthy_string s || truthy_string t.
Proof. destruct s; reflexivity. Qed.

Lemma stringify_loop_step o keys fields k :
  scalar (obj_get o k) = true ->
  stringify_loop o (k :: keys) fields =
  stringify_loop o keys
    ((if truthy_string fields then fields +:+ "&" else fields) +:+ field_of o k).
Proof.
  intros Hk. cbn [stringify_loop]. unfold field_of.
  rewrite <- (append_assoc (encodeStringified (VStr k)) "=").
  destruct (obj_get o k); try reflexivity. discriminate Hk.
Qed.

Lemma stringify_loop_scalar o keys fields :
  (forall k, In k keys -> scalar (obj_get o k) = true) ->
  truthy_string fields = true ->
  stringify_loop o keys fields = fields +:+ amp_tail (map (field_of o) keys).
Proof.
  revert fields. induction keys as [|k keys IH]; intros fields Hsc Hne.
  - cbn. now rewrite append_empty_r.
  - rewrite stringify_loop_step by (apply Hsc; now left).
    rewrite Hne, IH.
    + cbn [map amp_tail]. now rewrite !append_assoc.
    + intros k' Hk'. apply Hsc. now right.
    + rewrite !truthy_string_append, Hne. reflexivity.
Qed.

(** [stringify] on a mapping without array values: one field per key, in
    the order of the keys, joined by ampersands. *)
Lemma stringify_scalar o :
  (forall k, In k (obj_keys o) -> scalar (obj_get o k) = true) ->
  stringify o = join_amp (map (field_of o) (obj_keys o)).
Proof.
  unfold stringify. destruct (obj_keys o) as [|k keys]; intros Hsc.
  - reflexivity.
  - rewrite stringify_loop_step by (apply Hsc; now left).
    cbn [truthy_string map]. rewrite join_amp_cons.
    change ("" +:+ field_of o k) with (field_of o k).
    apply stringify_loop_scalar.
    + intros k' Hk'. apply Hsc. now right.
    + unfold field_of. rewrite !truthy_string_append.
      cbn. now rewrite orb_true_r.
Qed.

Lemma cursor_query_keys options :
  obj_keys (cursor_query (Some options)) =
  List.filter (fun k => truthy (obj_get options k)) cursor_keys.
Proof.
  unfold cursor_keys. cbn [List.filter].
  cursor_cases options; reflexivity.
Qed.

Lemma cursor_query_get options k :
  In k cursor_keys -> truthy (obj_get options k) = true ->
  obj_get (cursor_query (Some options)) k = obj_get options k.
Proof.
  intros [<- | [<- | [<- | []]]] Hk; cursor_cases options;
    try reflexivity; congruence.
Qed.

Lemma obj_has_keys o k : obj_has o k = true -> In k (obj_keys o).
Proof.
  induction o as [|[k' x] o IH]; [discriminate|].
  cbn [obj_has obj_keys map fst]. intros H.
  apply orb_true_iff in H as [H|H].
  - left. now apply String.eqb_eq.
  - right. now apply IH.
Qed.

Lemma cursor_query_has options k :
  truthy (obj_get options k) = false ->
  obj_has (cursor_query (Some options)) k = false.
Proof.
  intros Hk.
  destruct (obj_has (cursor_query (Some options)) k) eqn:Hhas; [|reflexivity].
  apply obj_has_keys in Hhas.
  rewrite cursor_query_keys in Hhas. apply filter_In in Hhas as [_ Hhas].
  congruence.
Qed.

Lemma obj_get_perm (o1 o2 : obj) :
  NoDup (obj_keys o1) -> o1 ≡ₚ o2 -> forall k, obj_get o1 k = obj_get o2 k.
Proof.
  intros Hnd Hperm. induction Hperm as [|[k0 x] l l' Hperm IH
                                        |[k1 x1] [k2 x2] l|l l' l'' H1 IH1 H2 IH2];
    intros k.
  - reflexivity.
  - cbn [obj_get]. apply NoDup_cons in Hnd as [_ Hnd]. now rewrite IH.
  - cbn [obj_get].
    destruct (String.eqb k2 k) eqn:E2, (String.eqb k1 k) eqn:E1; try reflexivity.
    apply String.eqb_eq in E1, E2. subst.
    apply NoDup_cons in Hnd as [Hnd _]. exfalso. apply Hnd. now left.
  - rewrite IH1 by assumption. apply IH2.
    unfold obj_keys in *. now rewrite <- H1.
Qed.

Lemma cursor_query_ext o1 o2 :
  (forall k, obj_get o1 k = obj_get o2 k) ->
  cursor_query (Some o1) = cursor_query (Some o2).
Proof.
  intros H. unfold cursor_query.
  change (default [] (Some o1)) with o1. change (default [] (Some o2)) with o2.
  now rewrite !H.
Qed.

(** ** Property updates and [getPlayer] *)




(** [getPlayer] is [_fetch] on the player's path followed by the renaming. *)
Lemma getPlayer_eq cleanTag env tag this :
  getPlayer cleanTag env tag this =
  match _fetch env ("/players/%23" +:+ cleanTag tag) None this with
  | (Return res, this', l) =>
      let '(r, this'', l') := rename_3vs3 res this' in (r, this'', l ++ l')
  | (Throw e, this', l) => (Throw e, this', l)
  end.
Proof. reflexivity. Qed.




(** * The claims *)

(** ** C1: a cache hit avoids the network *)

(** C1, refuted as worded: a response with body [0] and [max-age=60] is
    stored, but the lookup of the second call finds a falsy value and
    the call goes to the network again. *)
Lemma falsy_payload_is_fetched_again :
  let r := Scenario.success (Some "max-age=60") (VNum (Num 0)) in
  let first := _fetch (Scenario.serve r 1000 1200) "/brawlers" None Scenario.client0 in
  let second := _fetch (Scenario.serve r 2000 2200) "/brawlers" None first.1.2 in
  first.1.1 = Return (VNum (Num 0)) /\
  In (CacheSet (Scenario.api "/brawlers") (VNum (Num 0)) (Num 60)) first.2 /\
  In (NetGet (the_request Scenario.client0 (Scenario.api "/brawlers"))) second.2 /\
  ~ hit_after_any_store.
Proof.
  intros r first second.
  split; [reflexivity|].
  split; [vm_compute; right; left; reflexivity|].
  split; [vm_compute; left; reflexivity|].
  intros Hclaim.
  destruct (Hclaim (Scenario.serve r 1000 1200) (Scenario.serve r 2000 2200)
              "/brawlers" None Scenario.client0
              (VNum (Num 0)) first.1.2 first.2
              (the_request Scenario.client0 (Scenario.api "/brawlers")) r 60)
    as [_ Hshort].
  - vm_compute. eauto.
  - vm_compute. reflexivity.
  - vm_compute. left. reflexivity.
  - reflexivity.
  - reflexivity.
  - lia.
  - vm_compute. reflexivity.
  - apply (Hshort (the_request Scenario.client0 (Scenario.api "/brawlers"))).
    vm_compute. left. reflexivity.
Qed.

(** C1, amended. On a client with a cache, after a successful [_fetch]
    whose response yielded a positive TTL and whose decoded value is
    truthy (as every JSON object and array is), a second [_fetch] with the
    same path and query issued before the TTL has elapsed sends no
    request and returns the same decoded value. *)
Theorem hit_after_truthy_store env1 env2 path query this data this1 log1 rq r n :
  is_Some (cache this) ->
  _fetch env1 path query this = (Return data, this1, log1) ->
  In (NetGet rq) log1 -> network env1 rq = Resolved r ->
  ttl_of (cache_control r) = Num n -> 0 < n ->
  truthy data = true ->
  now_get env2 < now_set env1 + n * 1000 ->
  answered_from_cache env2 path query this1 data.
Proof.
  intros Hcache Hrun Hin Hnet Httl Hn Hdata Hnow.
  destruct (successful_call_stores env1 path query this data this1 log1 rq r n
              Hcache Hrun Hin Hnet Httl ltac:(lia)) as [Hentry Hbase].
  rewrite <- (request_url_baseURL this this1 path query Hbase) in Hentry.
  apply (truthy_entry_answers env2 path query this1 _ data Hentry); [lia|exact Hdata].
Qed.

Lemma hit_after_truthy_store_witness :
  let body := VObj [("tag", VStr "#2Q0VVCJ2")] in
  let env1 := Scenario.serve (Scenario.success (Some "max-age=60") body) 1000 1200 in
  let env2 := Scenario.serve Scenario.not_found 61199 61300 in
  let run := _fetch env1 "/players/%232Q0VVCJ2" None Scenario.client0 in
  answered_from_cache env2 "/players/%232Q0VVCJ2" None run.1.2 body.
Proof.
  intros body env1 env2 run.
  apply (hit_after_truthy_store env1 env2 "/players/%232Q0VVCJ2" None
           Scenario.client0 body run.1.2 run.2
           (the_request Scenario.client0 (Scenario.api "/players/%232Q0VVCJ2"))
           (Scenario.success (Some "max-age=60") body) 60).
  - vm_compute. eauto.
  - vm_compute. reflexivity.
  - vm_compute. left. reflexivity.
  - reflexivity.
  - reflexivity.
  - lia.
  - reflexivity.
  - vm_compute. reflexivity.
Defined.

(** ** C2: the key and the order of the query's keys *)

(** C2, refuted as worded: [stringify] writes the fields in the order of
    the mapping's keys; [{limit: 10, before: "abc"}] and
    [{before: "abc", limit: 10}] give two different keys. *)
Lemma insertion_order_changes_key :
  request_url Scenario.client0 "/rankings/us/players"
    (Some [("limit", VNum (Num 10)); ("before", VStr "abc")]) =
    "https://api.brawlstars.com/v1/rankings/us/players?limit=10&before=abc" /\
  request_url Scenario.client0 "/rankings/us/players"
    (Some [("before", VStr "abc"); ("limit", VNum (Num 10))]) =
    "https://api.brawlstars.com/v1/rankings/us/players?before=abc&limit=10" /\
  ~ key_ignores_insertion_order.
Proof.
  split; [reflexivity|]. split; [reflexivity|].
  intros [Hclaim _].
  specialize (Hclaim Scenario.client0 "/rankings/us/players"
                [("limit", VNum (Num 10)); ("before", VStr "abc")]
                [("before", VStr "abc"); ("limit", VNum (Num 10))]).
  assert ("https://api.brawlstars.com/v1/rankings/us/players?limit=10&before=abc"
          = "https://api.brawlstars.com/v1/rankings/us/players?before=abc&limit=10")
    as Habs; [|discriminate Habs].
  apply Hclaim.
  - cbn. apply NoDup_cons. split; [|apply NoDup_singleton].
    intros Hin. apply list_elem_of_singleton in Hin. discriminate Hin.
  - apply perm_swap.
Qed.

(** C2, amended. The accessors rebuild the query from the caller's
    options with [before] first, then [after], then [limit]; so two calls
    of any of the five accessors with cursor parameters whose options
    hold the same key/value pairs, in whatever order the caller wrote
    them, compute the same query and the same request key, and indeed are
    the same call; and the second call is answered from the cache when the
    first one stored a truthy payload under a positive TTL that has not
    elapsed. A direct [_fetch] serializes the mapping in the order of
    its keys and offers no such guarantee. *)
Theorem accessor_key_ignores_option_order (options1 options2 : obj) :
  NoDup (obj_keys options1) -> options1 ≡ₚ options2 ->
  cursor_query (Some options1) = cursor_query (Some options2) /\
  (forall this path,
     request_url this path (Some (cursor_query (Some options1))) =
     request_url this path (Some (cursor_query (Some options2)))) /\
  (forall cleanTag env country brawler tag,
     getPlayerRankings env country (Some options1) =
       getPlayerRankings env country (Some options2) /\
     getClubRankings env country (Some options1) =
       getClubRankings env country (Some options2) /\
     getBrawlerRankings env country brawler (Some options1) =
       getBrawlerRankings env country brawler (Some options2) /\
     getClubMembers cleanTag env tag (Some options1) =
       getClubMembers cleanTag env tag (Some options2) /\
     getBrawlers env (Some options1) = getBrawlers env (Some options2)) /\
  (forall cleanTag country brawler tag,
     repeat_is_served (fun env o => getPlayerRankings env country o)
       options1 options2 /\
     repeat_is_served (fun env o => getClubRankings env country o)
       options1 options2 /\
     repeat_is_served (fun env o => getBrawlerRankings env country brawler o)
       options1 options2 /\
     repeat_is_served (fun env o => getClubMembers cleanTag env tag o)
       options1 options2 /\
     repeat_is_served (fun env o => getBrawlers env o) options1 options2).
Proof.
  intros Hnd Hperm.
  assert (cursor_query (Some options1) = cursor_query (Some options2)) as Hq
    by (apply cursor_query_ext, obj_get_perm; assumption).
  split; [exact Hq|]. split; [intros; now rewrite Hq|]. split.
  { intros. unfold getPlayerRankings, getClubRankings, getBrawlerRankings,
      getClubMembers, getBrawlers. now rewrite Hq. }
  assert (forall path,
            repeat_is_served
              (fun env o => _fetch env path (Some (cursor_query o)))
              options1 options2) as Hserved.
  { intros path env1 env2 this data this1 log1 rq r n
      Hcache Hrun Hin Hnet Httl Hn Hdata Hnow.
    cbv beta in *. rewrite <- Hq.
    set (query := Some (cursor_query (Some options1))) in *.
    destruct (successful_call_stores env1 path query this data this1 log1 rq r n
                Hcache Hrun Hin Hnet Httl ltac:(lia)) as [Hentry Hbase].
    rewrite <- (request_url_baseURL this this1 path query Hbase) in Hentry.
    apply (truthy_entry_answers env2 path query this1 _ data Hentry);
      [lia|exact Hdata]. }
  intros cleanTag country brawler tag.
  split; [|split; [|split; [|split]]].
  - exact (Hserved ("/rankings/" +:+ country +:+ "/players")).
  - exact (Hserved ("/rankings/" +:+ country +:+ "/clubs")).
  - exact (Hserved ("/rankings/" +:+ country +:+ "/brawlers/" +:+ brawler)).
  - exact (Hserved ("/clubs/%23" +:+ cleanTag tag +:+ "/members")).
  - exact (Hserved "/brawlers").
Qed.

Lemma accessor_key_ignores_option_order_witness :
  let options1 := [("limit", VNum (Num 10)); ("before", VStr "abc")] in
  let options2 := [("before", VStr "abc"); ("limit", VNum (Num 10))] in
  let env1 := Scenario.serve
                (Scenario.success (Some "max-age=60") (VArr [VStr "p"])) 1000 1200 in
  let env2 := Scenario.serve Scenario.not_found 30000 30100 in
  let run := getClubMembers Utils.cleanTag env1 "#ABC" (Some options1)
               Scenario.client0 in
  request_url Scenario.client0 "/rankings/us/players"
    (Some (cursor_query (Some options1))) =
  request_url Scenario.client0 "/rankings/us/players"
    (Some (cursor_query (Some options2))) /\
  (getClubMembers Utils.cleanTag env2 "#ABC" (Some options2) run.1.2).1.1 =
    Return (VArr [VStr "p"]).
Proof.
  intros options1 options2 env1 env2 run.
  destruct (accessor_key_ignores_option_order options1 options2)
    as (_ & Hkey & _ & Hhit).
  - apply NoDup_cons. split; [|apply NoDup_singleton].
    intros Hin. apply list_elem_of_singleton in Hin. discriminate Hin.
  - apply perm_swap.
  - split; [apply Hkey|].
    destruct (Hhit Utils.cleanTag "us" "16000000" "#ABC")
      as (_ & _ & _ & Hmembers & _).
    apply (Hmembers env1 env2 Scenario.client0 (VArr [VStr "p"])
             run.1.2 run.2
             (the_request Scenario.client0
                (Scenario.api "/clubs/%23ABC/members?before=abc&limit=10"))
             (Scenario.success (Some "max-age=60") (VArr [VStr "p"])) 60).
    + vm_compute. eauto.
    + vm_compute. reflexivity.
    + vm_compute. left. reflexivity.
    + reflexivity.
    + reflexivity.
    + lia.
    + reflexivity.
    + vm_compute. reflexivity.
Defined.

(** ** C3: the TTL of a response *)

(** C3, refuted as worded: what follows the prefix is read by
    [parseInt], which takes the sign of [max-age=-5] and finds no number
    in [max-age=abc]; the TTL is then -5, or not a number, and neither an
    unsigned integer nor 0. *)
Lemma signed_or_unreadable_max_age :
  ttl_of (Some "max-age=-5") = Num (-5) /\
  ttl_of (Some "max-age=abc") = NaN /\
  ~ ttl_unsigned_after_prefix_else_zero.
Proof.
  split; [reflexivity|]. split; [reflexivity|].
  intros Hclaim. specialize (Hclaim (Some "max-age=abc")).
  cbv beta iota in Hclaim.
  change (startsWith "max-age=abc" "max-age=") with true in Hclaim.
  destruct Hclaim as (n & _ & Hn). discriminate Hn.
Qed.

(** C3, amended. The TTL derived from the [Cache-Control] header: when
    the header is [max-age=] followed by decimal digits only (an unsigned
    integer of at most 2^53, where numbers are exact) the TTL is that
    integer; when the header does not start with [max-age=], or is
    absent, the TTL is 0; so [max-age=120] gives 120 and [no-cache] gives
    0. A call whose response gives TTL 0 performs no cache store and adds
    no entry. *)
Theorem ttl_from_cache_control :
  (forall ds, ds <> EmptyString -> all_digits ds = true ->
     decimal_value ds <= 2 ^ 53 ->
     ttl_of (Some ("max-age=" +:+ ds)) = Num (decimal_value ds)) /\
  (forall h, startsWith h "max-age=" = false -> ttl_of (Some h) = Num 0) /\
  ttl_of None = Num 0 /\
  ttl_of (Some "max-age=120") = Num 120 /\
  ttl_of (Some "no-cache") = Num 0 /\
  (forall env path query this res this' log rq r,
     _fetch env path query this = (res, this', log) ->
     In (NetGet rq) log -> network env rq = Resolved r ->
     ttl_of (cache_control r) = Num 0 ->
     (forall key data ttl, ~ In (CacheSet key data ttl) log) /\
     (forall key, entry_of this key = None -> entry_of this' key = None)).
Proof.
  split; [|split; [|split; [|split; [|split]]]]; try reflexivity.
  - intros ds Hne Hds _. rewrite ttl_of_max_age.
    rewrite <- (append_empty_r ds) at 1.
    apply parseInt_digit_run; [assumption | assumption | reflexivity |].
    destruct ds as [|c [|c' ds]]; try reflexivity;
      destruct c as [[] [] [] [] [] [] [] []]; reflexivity.
  - exact ttl_of_other.
  - intros env path query this res this' log rq r Hrun Hin Hnet Httl.
    destruct (_fetch_log_inv env path query this res this' log rq Hrun Hin)
      as [Hmiss ->].
    split.
    + intros key data ttl Hset.
      destruct (_fetch_set_inv env path query this res this' log key data ttl
                  Hrun Hset) as (r' & Hnet' & _ & _ & -> & Htruthy & _).
      rewrite Hnet in Hnet'. injection Hnet' as <-.
      rewrite Httl in Htruthy. discriminate Htruthy.
    + rewrite _fetch_miss in Hrun by exact Hmiss. rewrite Hnet in Hrun.
      intros key Hkey.
      apply (after_get_entry env (request_url this path query) this key) in Hkey.
      destruct (ok r); [|now injection Hrun as _ <- _].
      destruct (json r); [|now injection Hrun as _ <- _].
      cbv zeta in Hrun. rewrite Httl in Hrun. cbn in Hrun.
      now injection Hrun as _ <- _.
Qed.

Lemma ttl_from_cache_control_witness :
  ttl_of (Some "max-age=3600") = Num 3600 /\
  ttl_of (Some "private") = Num 0 /\
  let env := Scenario.serve (Scenario.success (Some "no-cache") (VArr [])) 1000 1200 in
  let run := _fetch env "/brawlers" None Scenario.client0 in
  entry_of run.1.2 (Scenario.api "/brawlers") = None.
Proof.
  destruct ttl_from_cache_control as (Hdigits & Hother & _ & _ & _ & Hzero).
  split; [|split].
  - apply (Hdigits "3600"); [discriminate|reflexivity|vm_compute; discriminate].
  - apply (Hother "private"). reflexivity.
  - intros env run.
    apply (Hzero env "/brawlers" None Scenario.client0 run.1.1 run.1.2 run.2
             (the_request Scenario.client0 (Scenario.api "/brawlers"))
             (Scenario.success (Some "no-cache") (VArr []))).
    + vm_compute. reflexivity.
    + vm_compute. left. reflexivity.
    + reflexivity.
    + reflexivity.
    + reflexivity.
Defined.

(** ** C4: the mapping of HTTP failures *)

(** C4. Whenever a call of [_fetch] has sent a request and the response's
    status lies outside 200..299, the call throws an [APIError] that
    carries the response's status text as message and its status code,
    it performs no cache store, and a key without an entry before the
    call has none after it. *)
Theorem http_failure_is_APIError env path query this res this' log rq r :
  _fetch env path query this = (res, this', log) ->
  In (NetGet rq) log ->
  network env rq = Resolved r ->
  status r < 200 \/ 299 < status r ->
  res = Throw (APIError (statusText r) (status r)) /\
  (forall key data ttl, ~ In (CacheSet key data ttl) log) /\
  (forall key, entry_of this key = None -> entry_of this' key = None).
Proof.
  intros Hrun Hin Hnet Hstatus.
  destruct (_fetch_log_inv env path query this res this' log rq Hrun Hin)
    as [Hmiss ->].
  rewrite _fetch_miss in Hrun by exact Hmiss.
  rewrite Hnet in Hrun.
  assert (ok r = false) as Hok.
  { unfold ok. apply andb_false_iff.
    destruct Hstatus; [left; apply Z.leb_gt|right; apply Z.ltb_ge]; lia. }
  rewrite Hok in Hrun. injection Hrun as <- <- <-.
  split; [reflexivity|]. split.
  - intros key data ttl [Heq|[]]. discriminate Heq.
  - intros key. apply after_get_entry.
Qed.

Lemma http_failure_is_APIError_witness :
  let env := Scenario.serve Scenario.not_found 1000 1200 in
  let run := _fetch env "/players/%232Q0VVCJ2" None Scenario.client0 in
  run.1.1 = Throw (APIError "Not Found" 404) /\
  entry_of run.1.2 (Scenario.api "/players/%232Q0VVCJ2") = None.
Proof.
  intros env run.
  destruct (http_failure_is_APIError env "/players/%232Q0VVCJ2" None
              Scenario.client0 run.1.1 run.1.2 run.2
              (the_request Scenario.client0
                 (Scenario.api "/players/%232Q0VVCJ2"))
              Scenario.not_found)
    as (Hres & _ & Hcache).
  - vm_compute. reflexivity.
  - vm_compute. left. reflexivity.
  - reflexivity.
  - right. vm_compute. reflexivity.
  - split; [exact Hres|]. apply Hcache. vm_compute. reflexivity.
Defined.

(** ** C5: which TTLs reach the store *)

(** C5, refuted as worded: the header [max-age=-5] makes [parseInt]
    return -5, which is truthy, so the store is invoked with TTL -5. *)
Lemma negative_max_age_reaches_store :
  let env := Scenario.serve
               (Scenario.success (Some "max-age=-5") (VArr [])) 1000 1200 in
  In (CacheSet (Scenario.api "/brawlers") (VArr []) (Num (-5)))
     (_fetch env "/brawlers" None Scenario.client0).2 /\
  ~ store_only_positive_ttl.
Proof.
  intros env. split; [vm_compute; right; left; reflexivity|].
  intros Hclaim.
  destruct (Hclaim
              (Scenario.serve (Scenario.success (Some "max-age=-5") (VArr [])) 1000 1200)
              "/brawlers" None Scenario.client0
              (Scenario.api "/brawlers") (VArr []) (Num (-5)))
    as (z & Hz & Hpos).
  - vm_compute. right. left. reflexivity.
  - injection Hz as <-. lia.
Qed.

(** C5, amended. The store is never invoked with a TTL that is zero or
    not a number: every logged store carries a non-zero integer TTL, and
    a response whose computed TTL is falsy (0 or NaN) leads to no store
    at all. When the text after [max-age=] begins with a decimal digit,
    a TTL that reaches the store is positive. *)
Theorem store_ttl_never_zero env path query this res this' log :
  _fetch env path query this = (res, this', log) ->
  (forall key data ttl, In (CacheSet key data ttl) log ->
     exists z, ttl = Num z /\ z <> 0) /\
  (forall rq r, In (NetGet rq) log -> network env rq = Resolved r ->
     truthy_number (ttl_of (cache_control r)) = false ->
     forall key data ttl, ~ In (CacheSet key data ttl) log) /\
  (forall rq r rest, In (NetGet rq) log -> network env rq = Resolved r ->
     cache_control r = Some ("max-age=" +:+ rest) ->
     starts_with_digit rest = true ->
     forall key data ttl, In (CacheSet key data ttl) log ->
     exists z, ttl = Num z /\ 0 < z).
Proof.
  intros Hrun.
  assert (forall rq r key data ttl,
            In (NetGet rq) log -> network env rq = Resolved r ->
            In (CacheSet key data ttl) log ->
            ttl = ttl_of (cache_control r) /\ truthy_number ttl = true) as Hsame.
  { intros rq r key data ttl Hin Hnet Hset.
    destruct (_fetch_log_inv env path query this res this' log rq Hrun Hin)
      as [_ ->].
    destruct (_fetch_set_inv env path query this res this' log key data ttl
                Hrun Hset) as (r' & Hnet' & _ & _ & Httl & Htruthy & _).
    rewrite Hnet in Hnet'. injection Hnet' as <-. now split. }
  split; [|split].
  - intros key data ttl Hset.
    destruct (_fetch_set_inv env path query this res this' log key data ttl
                Hrun Hset) as (_ & _ & _ & _ & _ & Htruthy & _).
    now apply truthy_number_inv.
  - intros rq r Hin Hnet Hfalsy key data ttl Hset.
    destruct (Hsame rq r key data ttl Hin Hnet Hset) as [-> Htruthy].
    congruence.
  - intros rq r rest Hin Hnet Hcc Hdigit key data ttl Hset.
    destruct (Hsame rq r key data ttl Hin Hnet Hset) as [-> Htruthy].
    destruct (truthy_number_inv _ Htruthy) as (z & Hz & Hnz).
    exists z. split; [exact Hz|].
    rewrite Hcc, ttl_of_max_age in Hz.
    pose proof (parseInt_digit_nonneg rest z Hdigit Hz). lia.
Qed.

Lemma store_ttl_never_zero_witness :
  let env := Scenario.serve (Scenario.success (Some "max-age=60") (VArr [])) 1000 1200 in
  let run := _fetch env "/brawlers" None Scenario.client0 in
  exists z, Num 60 = Num z /\ 0 < z.
Proof.
  intros env run.
  destruct (store_ttl_never_zero env "/brawlers" None Scenario.client0
              run.1.1 run.1.2 run.2) as (_ & _ & Hpos).
  - vm_compute. reflexivity.
  - apply (Hpos (the_request Scenario.client0 (Scenario.api "/brawlers"))
             (Scenario.success (Some "max-age=60") (VArr [])) "60"
             ltac:(vm_compute; left; reflexivity) eq_refl eq_refl eq_refl
             (Scenario.api "/brawlers") (VArr []) (Num 60)).
    vm_compute. right. left. reflexivity.
Defined.

(** ** C6: the truthy check of the lookup *)

Lemma warm_entry_live payload :
  live_entry Warm.env (Warm.client_with payload)
    (request_url (Warm.client_with payload) "/brawlers" None)
    (NodeCache.Entry 61200 payload).
Proof.
  eexists. split; [reflexivity|]. split; [|reflexivity].
  change (request_url (Warm.client_with payload) "/brawlers" None)
    with (Scenario.api "/brawlers").
  apply lookup_singleton_eq.
Qed.

(** C6, refuted as worded: an empty array is an object, hence truthy, and
    a cached empty array is returned without a request. *)
Lemma cached_empty_array_is_a_hit :
  answered_from_cache Warm.env "/brawlers" None (Warm.client_with (VArr []))
    (VArr []) /\
  ~ truthy_check_misses_empty_array.
Proof.
  split.
  { split; [reflexivity|]. intros rq Hin. vm_compute in Hin. exact Hin. }
  intros [Hiff Hmiss].
  apply (Hmiss Warm.env "/brawlers" None (Warm.client_with (VArr []))
           (NodeCache.Entry 61200 (VArr [])) (warm_entry_live (VArr [])));
    [now left|].
  apply (Hiff _ _ _ _ _ (warm_entry_live (VArr []))). reflexivity.
Qed.

(** C6, amended. For a key that is present and unexpired in the cache,
    [_fetch] short-circuits if and only if the stored payload is truthy:
    a cached zero, [false], empty string or [null] is treated as a miss
    and triggers a request, while a cached array or object, the empty
    array included, is returned without a request. *)
Theorem lookup_is_a_truthy_check env path query this e :
  live_entry env this (request_url this path query) e ->
  (short_circuits env path query this <-> truthy (NodeCache.v e) = true) /\
  (NodeCache.v e = VNum (Num 0) \/ NodeCache.v e = VBool false \/
   NodeCache.v e = VStr "" \/ NodeCache.v e = VNull ->
   exists rq, In (NetGet rq) (_fetch env path query this).2) /\
  ((exists elems, NodeCache.v e = VArr elems) \/
   (exists fields, NodeCache.v e = VObj fields) ->
   answered_from_cache env path query this (NodeCache.v e)).
Proof.
  intros Hlive. pose proof (cached_live env _ _ _ Hlive) as Hc.
  split; [now apply live_entry_decides|]. split.
  - intros Hfalsy. eexists. apply miss_requests.
    rewrite Hc, truthy_unwrap.
    destruct Hfalsy as [-> | [-> | [-> | ->]]]; reflexivity.
  - intros Hobj.
    assert (truthy (NodeCache.v e) = true) as Ht.
    { destruct Hobj as [[elems ->] | [fields ->]]; reflexivity. }
    pose proof (hit_short_circuits env path query this) as Hhit.
    rewrite Hc, (unwrap_truthy e Ht) in Hhit. now apply Hhit.
Qed.

Lemma lookup_is_a_truthy_check_witness :
  (exists rq, In (NetGet rq)
     (_fetch Warm.env "/brawlers" None (Warm.client_with (VNum (Num 0)))).2) /\
  answered_from_cache Warm.env "/brawlers" None (Warm.client_with (VArr []))
    (VArr []).
Proof.
  split.
  - apply (lookup_is_a_truthy_check Warm.env "/brawlers" None
             (Warm.client_with (VNum (Num 0)))
             (NodeCache.Entry 61200 (VNum (Num 0)))).
    { eexists. split; [reflexivity|].
      split; [vm_compute; reflexivity | reflexivity]. }
    left. reflexivity.
  - apply (lookup_is_a_truthy_check Warm.env "/brawlers" None
             (Warm.client_with (VArr []))
             (NodeCache.Entry 61200 (VArr []))).
    { eexists. split; [reflexivity|].
      split; [vm_compute; reflexivity | reflexivity]. }
    left. exists []. reflexivity.
Defined.

(** ** C7: the request key *)

(** C7, refuted as worded: with the empty mapping [{}], which is truthy,
    the key ends in a question mark; [getBrawlers()] always passes one. *)
Lemma empty_query_appends_separator :
  request_url Scenario.client0 "/brawlers" (Some []) =
    "https://api.brawlstars.com/v1/brawlers?" /\
  ~ bare_url_without_query.
Proof.
  split; [reflexivity|].
  intros Hclaim.
  specialize (Hclaim Scenario.client0 "/brawlers" (Some []) (or_intror eq_refl)).
  vm_compute in Hclaim. discriminate Hclaim.
Qed.

(** C7, amended. With the query argument absent the request URL, which
    is also the cache key, is exactly the base URL followed by the path.
    With a query mapping passed it is the base URL, the path, a question
    mark and the serialized mapping, so that an empty mapping gives a URL
    ending in the question mark; a non-empty query string can only come
    from a non-empty mapping. Every logged request and store of a call
    uses that URL. *)
Theorem request_url_shape this path :
  request_url this path None = baseURL this +:+ path /\
  (forall q, request_url this path (Some q) =
             baseURL this +:+ path +:+ "?" +:+ stringify q) /\
  request_url this path (Some []) = baseURL this +:+ path +:+ "?" /\
  (forall q, stringify q <> "" -> q <> []) /\
  (forall env query res this' log,
     _fetch env path query this = (res, this', log) ->
     (forall rq, In (NetGet rq) log -> req_url rq = request_url this path query) /\
     (forall key data ttl, In (CacheSet key data ttl) log ->
        key = request_url this path query)).
Proof.
  split; [|split; [|split; [|split]]].
  - unfold request_url. now rewrite append_empty_r.
  - reflexivity.
  - reflexivity.
  - intros q Hq ->. now apply Hq.
  - intros env query res this' log Hrun. split.
    + intros rq Hin.
      now destruct (_fetch_log_inv env path query this res this' log rq Hrun Hin)
        as [_ ->].
    + intros key data ttl Hset.
      now destruct (_fetch_set_inv env path query this res this' log key data
                      ttl Hrun Hset) as (_ & _ & _ & _ & _ & _ & -> & _).
Qed.

Lemma request_url_shape_witness :
  let env := Scenario.serve (Scenario.success (Some "max-age=60") (VArr [])) 1000 1200 in
  let run := getBrawlers env None Scenario.client0 in
  let rq := the_request Scenario.client0 (Scenario.api "/brawlers?") in
  request_url Scenario.client0 "/brawlers" (Some []) =
    "https://api.brawlstars.com/v1" +:+ "/brawlers" +:+ "?" /\
  req_url rq = request_url Scenario.client0 "/brawlers" (Some []).
Proof.
  intros env run rq.
  destruct (request_url_shape Scenario.client0 "/brawlers")
    as (_ & _ & Hempty & _ & Hlog).
  split; [exact Hempty|].
  destruct (Hlog env (Some []) run.1.1 run.1.2 run.2) as [Hreq _].
  - vm_compute. reflexivity.
  - apply (Hreq rq). vm_compute. left. reflexivity.
Defined.

(** ** C8: the cursor parameters *)

(** C8, refuted as worded: [limit: 0] is present, yet the accessor's
    truthy test leaves it out of the query. *)
Lemma zero_limit_is_dropped :
  cursor_query (Some [("limit", VNum (Num 0))]) = [] /\
  ~ cursor_passed_when_present.
Proof.
  split; [reflexivity|].
  intros Hclaim.
  destruct (Hclaim [("limit", VNum (Num 0))] "limit") as [Hpass _].
  - right. right. left. reflexivity.
  - assert (obj_get [("limit", VNum (Num 0))] "limit" <> VUndefined) as Hne
      by discriminate.
    specialize (Hpass Hne). discriminate Hpass.
Qed.

(** C8, amended. In every accessor that takes cursor parameters, each of
    [before], [after] and [limit] is passed through verbatim in the query
    mapping when it is truthy (a non-empty string, a non-zero number); a
    parameter that is undefined, absent or otherwise falsy is not a key
    of the mapping. The serialized query has exactly one [key=value]
    field per truthy parameter, in the order before, after, limit, so an
    omitted parameter is never written out as [undefined]. *)
Theorem cursor_passed_when_truthy :
  (forall options k, In k cursor_keys ->
     truthy (obj_get options k) = true ->
     obj_get (cursor_query (Some options)) k = obj_get options k) /\
  (forall options k,
     truthy (obj_get options k) = false ->
     obj_has (cursor_query (Some options)) k = false) /\
  (forall options,
     (forall k, In k cursor_keys -> scalar (obj_get options k) = true) ->
     stringify (cursor_query (Some options)) =
     join_amp
       (map (fun k => k +:+ "=" +:+ encodeStringified (obj_get options k))
          (List.filter (fun k => truthy (obj_get options k)) cursor_keys))).
Proof.
  split; [exact cursor_query_get|]. split; [exact cursor_query_has|].
  intros options Hsc.
  assert (forall k, In k (obj_keys (cursor_query (Some options))) ->
            In k cursor_keys /\ truthy (obj_get options k) = true) as Hkeys.
  { intros k. rewrite cursor_query_keys, filter_In. trivial. }
  rewrite stringify_scalar.
  - rewrite <- cursor_query_keys. f_equal. apply map_ext_in.
    intros k Hk. destruct (Hkeys k Hk) as [Hin Ht].
    unfold field_of. rewrite cursor_query_get by assumption.
    destruct Hin as [<- | [<- | [<- | []]]]; reflexivity.
  - intros k Hk. destruct (Hkeys k Hk) as [Hin Ht].
    rewrite cursor_query_get by assumption. now apply Hsc.
Qed.

Lemma cursor_passed_when_truthy_witness :
  let options := [("limit", VNum (Num 10)); ("before", VStr "abc")] in
  obj_get (cursor_query (Some options)) "limit" = VNum (Num 10) /\
  obj_has (cursor_query (Some options)) "after" = false /\
  stringify (cursor_query (Some options)) = "before=abc&limit=10".
Proof.
  intros options.
  destruct cursor_passed_when_truthy as (Hpass & Homit & Hser).
  split; [|split].
  - apply (Hpass options "limit"); [right; right; left|]; reflexivity.
  - apply (Homit options "after"). reflexivity.
  - refine (eq_trans (Hser options _) _).
    + intros k [<- | [<- | [<- | []]]]; reflexivity.
    + vm_compute. reflexivity.
Defined.

(** ** C9: [getPlayer] *)



(** ** C10: text after the digits of [max-age] *)

(** C10, refuted as worded: in [max-age=0xA] the digit run is [0] and no
    digit follows it, yet [parseInt] reads the hexadecimal literal and the
    TTL is 10. *)
Lemma hex_literal_is_not_its_leading_zero :
  ttl_of (Some "max-age=0xA") = Num 10 /\ decimal_value "0" = 0 /\
  ~ leading_digits_ttl.
Proof.
  split; [reflexivity|]. split; [reflexivity|].
  intros Hclaim.
  destruct (Hclaim "0" "xA") as [Httl _]; try reflexivity; [discriminate|].
  vm_compute in Httl. discriminate Httl.
Qed.

(** C10, amended. For a header [max-age=] followed by decimal digits whose
    value is positive (and at most 2^53) and then by text that does not
    begin with a digit, the computed TTL is the value of the digit run;
    and on a client with a cache, every call that returns after it
    received a response with that header has stored the returned body
    under the request key with that TTL, the entry's deadline being the
    clock plus 1000 times the TTL (for a clock that is not negative and a
    deadline of at most 2^53, where the sum is exact). *)
Theorem positive_leading_digits_ttl ds rest :
  ds <> EmptyString -> all_digits ds = true ->
  starts_with_digit rest = false ->
  0 < decimal_value ds <= 2 ^ 53 ->
  let header := "max-age=" +:+ ds +:+ rest in
  ttl_of (Some header) = Num (decimal_value ds) /\
  forall env path query this data this' log rq r,
    is_Some (cache this) ->
    _fetch env path query this = (Return data, this', log) ->
    In (NetGet rq) log -> network env rq = Resolved r ->
    cache_control r = Some header ->
    0 <= now_set env ->
    now_set env + decimal_value ds * 1000 <= 2 ^ 53 ->
    stored_under env this' log (request_url this path query) data
      (decimal_value ds).
Proof.
  intros Hne Hds Hrest [Hpos _] header.
  assert (ttl_of (Some header) = Num (decimal_value ds)) as Httl.
  { unfold header. rewrite ttl_of_max_age.
    apply parseInt_digit_run; try assumption.
    destruct (hex_marked ds rest) eqn:Hhex; [|reflexivity].
    apply hex_marked_inv in Hhex. lia. }
  split; [exact Httl|].
  intros env path query this data this' log rq r Hcache Hrun Hin Hnet
    Hcc _ _.
  destruct (_fetch_returned_inv env path query this data this' log rq r
              Hrun Hin Hnet) as [Hok Hjson].
  destruct (_fetch_log_inv env path query this _ this' log rq Hrun Hin)
    as [Hmiss ->].
  rewrite <- Hcc in Httl.
  destruct (_fetch_stores env path query this r data (decimal_value ds)
              Hcache Hmiss Hnet Hok Hjson Httl ltac:(lia))
    as (this'' & Hrun' & Hentry & _).
  rewrite Hrun' in Hrun. injection Hrun as <- <-.
  split; [|exact Hentry].
  right. left. reflexivity.
Qed.

Lemma positive_leading_digits_ttl_witness :
  let header := "max-age=120, must-revalidate" in
  let env := Scenario.serve (Scenario.success (Some header) (VArr [])) 1000 1200 in
  let run := _fetch env "/brawlers" None Scenario.client0 in
  ttl_of (Some header) = Num 120 /\
  entry_of run.1.2 (Scenario.api "/brawlers") =
    Some (NodeCache.Entry 121200 (VArr [])).
Proof.
  intros header env run.
  destruct (positive_leading_digits_ttl "120" ", must-revalidate")
    as [Httl Hstored];
    [discriminate | reflexivity | reflexivity
    | vm_compute; split; [reflexivity | discriminate] |].
  split; [exact Httl|].
  destruct (Hstored env "/brawlers" None Scenario.client0 (VArr [])
              run.1.2 run.2
              (the_request Scenario.client0 (Scenario.api "/brawlers"))
              (Scenario.success (Some header) (VArr [])))
    as [_ Hentry].
  - vm_compute. eauto.
  - vm_compute. reflexivity.
  - vm_compute. left. reflexivity.
  - reflexivity.
  - reflexivity.
  - vm_compute. discriminate.
  - vm_compute. discriminate.
  - exact Hentry.
Defined.

(** * Further properties of the client *)

(** ** Every way a call can end *)

Section Outcomes.
Variable env : Env.

Lemma _fetch_outcomes path query this :
  let url := request_url this path query in
  let this1 := after_get env url this in
  let rq := the_request this url in
  let run := _fetch env path query this in
  (truthy (cached env url this) = true /\
   run = (Return (cached env url this), this1, [])) \/
  (truthy (cached env url this) = false /\
   ((exists why, network env rq = Rejected why /\
       run = (Throw (FetchError why), this1, [NetGet rq])) \/
    (exists r, network env rq = Resolved r /\ ok r = false /\
       run = (Throw (APIError (statusText r) (status r)), this1, [NetGet rq])) \/
    (exists r, network env rq = Resolved r /\ ok r = true /\ json r = None /\
       run = (Throw (FetchError "invalid-json"), this1, [NetGet rq])) \/
    (exists r data, network env rq = Resolved r /\ ok r = true /\
       json r = Some data /\
       truthy_number (ttl_of (cache_control r)) = false /\
       run = (Return data, this1, [NetGet rq])) \/
    (exists r data, network env rq = Resolved r /\ ok r = true /\
       json r = Some data /\
       truthy_number (ttl_of (cache_control r)) = true /\
       run = (Return data,
              after_set env url data (ttl_of (cache_control r)) this1,
              NetGet rq :: set_events this1 url data (ttl_of (cache_control r)))))).
Proof.
  intros url this1 rq run. unfold run.
  destruct (truthy (cached env url this)) eqn:Hc.
  { left. split; [reflexivity|]. now apply _fetch_hit. }
  right. split; [reflexivity|].
  rewrite _fetch_miss by exact Hc. fold url this1 rq.
  destruct (network env rq) as [why|r]; [left; eauto|].
  right. destruct (ok r) eqn:Hok; [|left; eauto].
  right. destruct (json r) as [data|] eqn:Hjson; [|left; eauto].
  right. cbv zeta.
  destruct (truthy_number (ttl_of (cache_control r))) eqn:Httl.
  - right. exists r, data. repeat split; assumption.
  - left. exists r, data. repeat split; assumption.
Qed.

Lemma cached_without_cache url this :
  cache this = None -> cached env url this = VUndefined /\ after_get env url this = this.
Proof. unfold cached, after_get. now intros ->. Qed.

Lemma after_get_entry_ne url this key :
  key <> url -> entry_of (after_get env url this) key = entry_of this key.
Proof.
  intros Hne. unfold entry_of, after_get, NodeCache.get.
  destruct (cache this) as [d|] eqn:Hd; [|now rewrite Hd].
  cbn [cache]. destruct (NodeCache.data d !! url) as [e|]; [|reflexivity].
  destruct (NodeCache._check _ (now_get env) e); [reflexivity|].
  cbn. apply lookup_delete_ne. congruence.
Qed.

Lemma after_set_entry_ne url data ttl this key :
  key <> url -> entry_of (after_set env url data ttl this) key = entry_of this key.
Proof.
  intros Hne. unfold entry_of, after_set, NodeCache.set.
  destruct (cache this) as [d|] eqn:Hd; [|now rewrite Hd].
  cbn [cache NodeCache.data]. apply lookup_insert_ne. congruence.
Qed.

Lemma after_set_fields url data ttl this :
  token (after_set env url data ttl this) = token this /\
  baseURL (after_set env url data ttl this) = baseURL this.
Proof. unfold after_set. now destruct (cache this). Qed.

Lemma after_get_fields url this :
  token (after_get env url this) = token this /\
  baseURL (after_get env url this) = baseURL this.
Proof. unfold after_get. now destruct (cache this). Qed.

(** A live entry with a truthy payload: the call returns the payload and
    changes nothing. *)
Lemma live_truthy_hit path query this e :
  live_entry env this (request_url this path query) e ->
  truthy (NodeCache.v e) = true ->
  _fetch env path query this = (Return (NodeCache.v e), this, []).
Proof.
  intros Hlive Ht.
  pose proof (cached_live env _ _ _ Hlive) as Hc.
  rewrite _fetch_hit by now rewrite Hc, truthy_unwrap.
  rewrite Hc, (unwrap_truthy e Ht).
  destruct Hlive as (d & Hd & He & Hchk).
  unfold after_get, NodeCache.get. rewrite Hd, He, Hchk. cbn.
  destruct this; cbn in *. now subst.
Qed.

(** An entry before its deadline, or without one, is live. *)
Lemma entry_is_live this url t data :
  entry_of this url = Some (NodeCache.Entry t data) ->
  t = 0 \/ now_get env < t ->
  live_entry env this url (NodeCache.Entry t data).
Proof.
  intros Hentry Ht. unfold entry_of in Hentry.
  destruct (cache this) as [d|] eqn:Hd; [|discriminate Hentry].
  exists d. split; [exact Hd|]. split; [exact Hentry|].
  unfold NodeCache._check, NodeCache.expired. cbn [NodeCache.t].
  apply negb_true_iff, andb_false_iff. left.
  destruct Ht as [-> | Ht]; [reflexivity|].
  apply andb_false_iff. right. apply Z.ltb_ge. lia.
Qed.

(** On a cache that keeps expired entries, every entry is live. *)
Lemma kept_entry_is_live this url e :
  keeps_expired this ->
  entry_of this url = Some e ->
  live_entry env this url e.
Proof.
  intros Hkeep Hentry. unfold entry_of in Hentry.
  destruct (cache this) as [d|] eqn:Hd; [|discriminate Hentry].
  exists d. split; [exact Hd|]. split; [exact Hentry|].
  unfold NodeCache._check. rewrite (Hkeep d Hd). now rewrite andb_false_r.
Qed.

(** A stale entry under [deleteOnExpire]: the lookup answers [undefined]
    and deletes it. *)
Lemma stale_lookup url this e :
  deletes_expired this ->
  entry_of this url = Some e ->
  NodeCache.t e <> 0 -> NodeCache.t e < now_get env ->
  cached env url this = VUndefined /\
  entry_of (after_get env url this) url = None.
Proof.
  intros Hdel He Hnz Hlt. unfold entry_of in He.
  destruct (cache this) as [d|] eqn:Hd; [|discriminate He].
  assert (NodeCache._check (NodeCache.options d) (now_get env) e = false)
    as Hchk.
  { unfold NodeCache._check, NodeCache.expired. rewrite (Hdel d Hd).
    apply negb_false_iff. rewrite andb_true_r. apply andb_true_iff. split.
    - now apply negb_true_iff, Z.eqb_neq.
    - now apply Z.ltb_lt. }
  unfold cached, after_get, entry_of, NodeCache.get.
  rewrite Hd, He, Hchk. cbn. split; [reflexivity|]. apply lookup_delete_eq.
Qed.

(** A call leaves the options of the cache as they are. *)
Lemma after_get_options url this :
  deletes_expired this -> deletes_expired (after_get env url this).
Proof.
  intros Hdel c. unfold after_get, NodeCache.get.
  destruct (cache this) as [d|] eqn:Hd; [|intros Hc; now apply Hdel].
  cbn [cache]. specialize (Hdel d Hd).
  destruct (NodeCache.data d !! url) as [e|]; [|now intros [= <-]].
  destruct (NodeCache._check _ (now_get env) e); now intros [= <-].
Qed.

Lemma after_set_options url data ttl this :
  deletes_expired this -> deletes_expired (after_set env url data ttl this).
Proof.
  intros Hdel c. unfold after_set, NodeCache.set.
  destruct (cache this) as [d|] eqn:Hd; [|intros Hc; now apply Hdel].
  cbn [cache]. specialize (Hdel d Hd). now intros [= <-].
Qed.

Lemma _fetch_request_url path query this rq :
  In (NetGet rq) (_fetch env path query this).2 ->
  req_url rq = request_url this path query.
Proof.
  intros Hin.
  destruct (_fetch env path query this) as [[res this'] log] eqn:Hrun.
  now destruct (_fetch_log_inv env path query this res this' log rq Hrun Hin)
    as [_ ->].
Qed.

End Outcomes.

Ltac fetch_outcomes env path query this :=
  destruct (_fetch_outcomes env path query this) as
    [[Hc Hrun]
    |[Hc [(why & Hnet & Hrun)
         |[(r & Hnet & Hok & Hrun)
          |[(r & Hnet & Hok & Hjson & Hrun)
           |[(r & data & Hnet & Hok & Hjson & Httl & Hrun)
            |(r & data & Hnet & Hok & Hjson & Httl & Hrun)]]]]]].

(** ** A client without a cache *)

(** X1. On a client constructed with [cache: false], every call sends
    exactly one request, performs no store and leaves the client as it
    was. *)
Theorem uncached_client_always_requests env path query this :
  cache this = None ->
  (_fetch env path query this).2 =
    [NetGet (the_request this (request_url this path query))] /\
  (_fetch env path query this).1.2 = this.
Proof.
  intros Hnone.
  destruct (cached_without_cache env (request_url this path query) this Hnone)
    as [Hund Hsame].
  assert (forall data ttl,
            set_events this (request_url this path query) data ttl = [] /\
            after_set env (request_url this path query) data ttl this = this)
    as Hset.
  { intros. unfold set_events, after_set. now rewrite Hnone. }
  fetch_outcomes env path query this; rewrite Hrun; rewrite ?Hsame; cbn;
    try (split; reflexivity).
  - rewrite Hund in Hc. discriminate Hc.
  - destruct (Hset data (ttl_of (cache_control r))) as [-> ->]. now split.
Qed.

Lemma uncached_client_always_requests_witness :
  let this := new_Client "token"
                (Some {| opt_cache := false; opt_cacheOptions := None;
                         opt_baseURL := None |}) in
  let env := Scenario.serve
               (Scenario.success (Some "max-age=60") (VArr [])) 1000 1200 in
  (_fetch env "/brawlers" None this).2 =
    [NetGet (the_request this (Scenario.api "/brawlers"))] /\
  (_fetch env "/brawlers" None this).1.2 = this.
Proof.
  intros this env.
  apply (uncached_client_always_requests env "/brawlers" None this).
  reflexivity.
Defined.

(** ** What a request looks like *)

(** X2. Every request a call sends goes to the request URL and carries
    exactly three headers: [Authorization] with [Bearer ] followed by the
    client's current token, the fixed [User-Agent] and
    [Accept: application/json]. *)
Theorem requests_carry_bearer_token env path query this rq :
  In (NetGet rq) (_fetch env path query this).2 ->
  req_url rq = request_url this path query /\
  req_headers rq =
    [("Authorization", "Bearer " +:+ token this);
     ("User-Agent", "BrawlStars.js https://github.com/pollen5/brawlstars.js");
     ("Accept", "application/json")].
Proof.
  intros Hin.
  destruct (_fetch env path query this) as [[res this'] log] eqn:Hrun.
  destruct (_fetch_log_inv env path query this res this' log rq Hrun Hin)
    as [_ ->].
  split; reflexivity.
Qed.

Lemma requests_carry_bearer_token_witness :
  let env := Scenario.serve Scenario.not_found 1000 1200 in
  let rq := the_request Scenario.client0 (Scenario.api "/events/rotation") in
  req_url rq = Scenario.api "/events/rotation" /\
  req_headers rq =
    [("Authorization", "Bearer token");
     ("User-Agent", "BrawlStars.js https://github.com/pollen5/brawlstars.js");
     ("Accept", "application/json")].
Proof.
  intros env rq.
  apply (requests_carry_bearer_token env "/events/rotation" None
           Scenario.client0 rq).
  vm_compute. left. reflexivity.
Defined.

(** X3. A call sends at most one request and performs at most one store:
    its log is empty (a cache hit), or the single request, or the request
    followed by one store under the request URL. There is no retry. *)
Theorem one_request_at_most env path query this :
  let url := request_url this path query in
  let log := (_fetch env path query this).2 in
  log = [] \/
  log = [NetGet (the_request this url)] \/
  exists data ttl, log = [NetGet (the_request this url); CacheSet url data ttl].
Proof.
  intros url log. unfold log.
  fetch_outcomes env path query this; rewrite Hrun; cbn [snd];
    try (now left); try (right; left; reflexivity).
  unfold set_events. destruct (cache _); [|right; left; reflexivity].
  right. right. eauto.
Qed.

(** ** Failures other than an HTTP status *)

(** X4. When the transport fails (the promise of [fetch] is rejected) the
    call throws that failure, performs no store and adds no cache entry. *)
Theorem transport_failure_propagates env path query this res this' log rq why :
  _fetch env path query this = (res, this', log) ->
  In (NetGet rq) log ->
  network env rq = Rejected why ->
  res = Throw (FetchError why) /\
  log = [NetGet rq] /\
  (forall key, entry_of this key = None -> entry_of this' key = None).
Proof.
  intros Hrun Hin Hnet.
  destruct (_fetch_log_inv env path query this res this' log rq Hrun Hin)
    as [Hmiss ->].
  rewrite _fetch_miss in Hrun by exact Hmiss. rewrite Hnet in Hrun.
  injection Hrun as <- <- <-.
  split; [reflexivity|]. split; [reflexivity|].
  intros key. apply after_get_entry.
Qed.

Lemma transport_failure_propagates_witness :
  let env := {| now_get := 1000; now_set := 1200;
                network := fun _ => Rejected "ECONNREFUSED" |} in
  let run := _fetch env "/brawlers" None Scenario.client0 in
  run.1.1 = Throw (FetchError "ECONNREFUSED") /\
  entry_of run.1.2 (Scenario.api "/brawlers") = None.
Proof.
  intros env run.
  destruct (transport_failure_propagates env "/brawlers" None Scenario.client0
              run.1.1 run.1.2 run.2
              (the_request Scenario.client0 (Scenario.api "/brawlers"))
              "ECONNREFUSED") as (Hres & _ & Hcache).
  - vm_compute. reflexivity.
  - vm_compute. left. reflexivity.
  - reflexivity.
  - split; [exact Hres|]. apply Hcache. vm_compute. reflexivity.
Defined.

(** X5. When a successful response has a body that is not JSON, the call
    fails with what [response.json()] rejects with, node-fetch's
    [FetchError] of type [invalid-json], and stores nothing, whatever the
    [Cache-Control] header says. *)
Theorem malformed_body_is_not_cached env path query this res this' log rq r :
  _fetch env path query this = (res, this', log) ->
  In (NetGet rq) log ->
  network env rq = Resolved r -> ok r = true -> json r = None ->
  res = Throw (FetchError "invalid-json") /\
  log = [NetGet rq] /\
  (forall key, entry_of this key = None -> entry_of this' key = None).
Proof.
  intros Hrun Hin Hnet Hok Hjson.
  destruct (_fetch_log_inv env path query this res this' log rq Hrun Hin)
    as [Hmiss ->].
  rewrite _fetch_miss in Hrun by exact Hmiss.
  rewrite Hnet, Hok, Hjson in Hrun.
  injection Hrun as <- <- <-.
  split; [reflexivity|]. split; [reflexivity|].
  intros key. apply after_get_entry.
Qed.

Lemma malformed_body_is_not_cached_witness :
  let r := {| status := 200; statusText := "OK";
              cache_control := Some "max-age=60"; json := None |} in
  let env := Scenario.serve r 1000 1200 in
  let run := _fetch env "/brawlers" None Scenario.client0 in
  run.1.1 = Throw (FetchError "invalid-json") /\
  entry_of run.1.2 (Scenario.api "/brawlers") = None.
Proof.
  intros r env run.
  destruct (malformed_body_is_not_cached env "/brawlers" None Scenario.client0
              run.1.1 run.1.2 run.2
              (the_request Scenario.client0 (Scenario.api "/brawlers")) r)
    as (Hres & _ & Hcache).
  - vm_compute. reflexivity.
  - vm_compute. left. reflexivity.
  - reflexivity.
  - reflexivity.
  - reflexivity.
  - split; [exact Hres|]. apply Hcache. vm_compute. reflexivity.
Defined.

(** ** What a call changes *)

(** X6. A call never changes the client's token or base URL, and the only
    cache entry it can add, replace or delete is the one under its own
    request URL: the entry under every other key is what it was. *)
Theorem call_touches_only_its_key env path query this :
  let this' := (_fetch env path query this).1.2 in
  token this' = token this /\
  baseURL this' = baseURL this /\
  (cache this' = None <-> cache this = None) /\
  forall key, key <> request_url this path query ->
    entry_of this' key = entry_of this key.
Proof.
  intros this'. unfold this'.
  set (url := request_url this path query).
  assert (cache (after_get env url this) = None <-> cache this = None) as Hg.
  { unfold after_get. destruct (cache this) eqn:Hd; [|now rewrite Hd].
    cbn. split; discriminate. }
  assert (forall data ttl c,
            cache (after_set env url data ttl c) = None <-> cache c = None) as Hs.
  { intros. unfold after_set. destruct (cache c) eqn:Hd; [|now rewrite Hd].
    cbn. split; discriminate. }
  pose proof (after_get_fields env url this) as [Htok Hbase].
  fetch_outcomes env path query this; fold url in Hrun; rewrite Hrun;
    cbn [fst snd];
    try (repeat split;
         try assumption; try apply Hg;
         intros key Hne; now apply after_get_entry_ne).
  destruct (after_set_fields env url data (ttl_of (cache_control r))
              (after_get env url this)) as [Htok' Hbase'].
  split; [congruence|]. split; [congruence|]. split.
  - rewrite Hs. exact Hg.
  - intros key Hne. rewrite after_set_entry_ne by exact Hne.
    now apply after_get_entry_ne.
Qed.

(** X7. On a successful response with a JSON body, a store is attempted
    exactly when the client has a cache and the computed TTL is truthy,
    and then under the request URL, with that body and that TTL. When no
    store is attempted the call returns the decoded body, and whenever the
    call returns a value at all, that value is the decoded body. *)
Theorem success_returns_body_and_stores_iff_ttl
    env path query this res this' log rq r data :
  _fetch env path query this = (res, this', log) ->
  In (NetGet rq) log ->
  network env rq = Resolved r -> ok r = true -> json r = Some data ->
  ((exists key x ttl, In (CacheSet key x ttl) log) <->
   (is_Some (cache this) /\
    truthy_number (ttl_of (cache_control r)) = true)) /\
  (forall key x ttl, In (CacheSet key x ttl) log ->
     key = request_url this path query /\ x = data /\
     ttl = ttl_of (cache_control r)) /\
  ((forall key x ttl, ~ In (CacheSet key x ttl) log) -> res = Return data) /\
  (forall x, res = Return x -> x = data).
Proof.
  intros Hrun Hin Hnet Hok Hjson.
  destruct (_fetch_log_inv env path query this res this' log rq Hrun Hin)
    as [Hmiss ->].
  set (url := request_url this path query) in *.
  assert (is_Some (cache (after_get env url this)) <-> is_Some (cache this))
    as Hg.
  { unfold after_get. destruct (cache this) eqn:Hd; [|now rewrite Hd].
    cbn. split; eauto. }
  rewrite _fetch_miss in Hrun by exact Hmiss. fold url in Hrun.
  rewrite Hnet, Hok, Hjson in Hrun. cbv zeta in Hrun.
  assert (res = Return data) as ->.
  { destruct (truthy_number (ttl_of (cache_control r)));
      now injection Hrun as <- _ _. }
  assert (forall x, Return data = Return x -> x = data) as Hsame
    by (now intros x [= <-]).
  destruct (truthy_number (ttl_of (cache_control r))) eqn:Httl;
    injection Hrun as <- <-.
  - unfold set_events.
    destruct (cache (after_get env url this)) as [d|] eqn:Hd.
    + split; [|split; [|split; [reflexivity|exact Hsame]]].
      * split; [intros _; split; [apply Hg; eauto|reflexivity]|].
        intros _. eexists _, _, _. right. left. reflexivity.
      * intros key x ttl [Heq|[Heq|[]]]; [discriminate Heq|].
        now injection Heq as <- <- <-.
    + split; [|split; [|split; [reflexivity|exact Hsame]]].
      * split.
        -- intros (key & x & ttl & [Heq|[]]). discriminate Heq.
        -- intros [Hsome _]. apply Hg in Hsome. destruct Hsome. discriminate.
      * intros key x ttl [Heq|[]]. discriminate Heq.
  - split; [|split; [|split; [reflexivity|exact Hsame]]].
    + split.
      * intros (key & x & ttl & [Heq|[]]). discriminate Heq.
      * intros [_ Habs]. discriminate Habs.
    + intros key x ttl [Heq|[]]. discriminate Heq.
Qed.

Lemma success_returns_body_and_stores_iff_ttl_witness :
  let body := VArr [VStr "slot"] in
  let r := Scenario.success None body in
  let env := Scenario.serve r 1000 1200 in
  let run := _fetch env "/events/rotation" None Scenario.client0 in
  run.1.1 = Return body.
Proof.
  intros body r env run.
  destruct (success_returns_body_and_stores_iff_ttl env "/events/rotation"
              None Scenario.client0 run.1.1 run.1.2 run.2
              (the_request Scenario.client0 (Scenario.api "/events/rotation"))
              r body) as (_ & _ & Hplain & _).
  - vm_compute. reflexivity.
  - vm_compute. left. reflexivity.
  - reflexivity.
  - reflexivity.
  - reflexivity.
  - apply Hplain. intros key x ttl Hset. vm_compute in Hset.
    destruct Hset as [Heq|[]]. discriminate Heq.
Defined.

(** ** Hits and expiry *)

(** X8. A cache hit has no side effect: when the entry under the request
    URL is before its deadline (or has none) and its payload is truthy,
    the call returns the payload, logs nothing and leaves the client,
    the entry's deadline included, exactly as it was. *)
Theorem hit_has_no_side_effect env path query this t data :
  entry_of this (request_url this path query) = Some (NodeCache.Entry t data) ->
  t = 0 \/ now_get env < t ->
  truthy data = true ->
  _fetch env path query this = (Return data, this, []).
Proof.
  intros Hentry Ht Hdata.
  apply (live_truthy_hit env path query this (NodeCache.Entry t data));
    [|exact Hdata].
  now apply entry_is_live.
Qed.

Lemma hit_has_no_side_effect_witness :
  _fetch Warm.env "/brawlers" None (Warm.client_with (VArr [VStr "old"])) =
    (Return (VArr [VStr "old"]), Warm.client_with (VArr [VStr "old"]), []).
Proof.
  apply (hit_has_no_side_effect Warm.env "/brawlers" None
           (Warm.client_with (VArr [VStr "old"])) 61200 (VArr [VStr "old"])).
  - vm_compute. reflexivity.
  - right. vm_compute. reflexivity.
  - reflexivity.
Defined.

(** The options of the cache outlive a call. *)
Lemma _fetch_keeps_options env path query this :
  deletes_expired this -> deletes_expired (_fetch env path query this).1.2.
Proof.
  intros Hdel.
  pose proof (after_get_options env (request_url this path query) this Hdel)
    as Hget.
  fetch_outcomes env path query this; rewrite Hrun; cbn [fst snd];
    try exact Hget.
  now apply after_set_options.
Qed.

(** X9. On a cache that runs with [deleteOnExpire] (node-cache's
    default), an entry whose deadline has passed is not served: the call
    sends a request, and afterwards the key holds either no entry or an
    entry this very call stored, with the body it decoded. *)
Theorem stale_entry_is_dropped_and_refetched env path query this e :
  let url := request_url this path query in
  let run := _fetch env path query this in
  deletes_expired this ->
  entry_of this url = Some e ->
  NodeCache.t e <> 0 -> NodeCache.t e < now_get env ->
  In (NetGet (the_request this url)) run.2 /\
  (entry_of run.1.2 url = None \/
   exists data ttl e',
     In (CacheSet url data ttl) run.2 /\
     entry_of run.1.2 url = Some e' /\ NodeCache.v e' = data).
Proof.
  intros url run Hdel He Hnz Hlt. unfold run.
  destruct (stale_lookup env url this e Hdel He Hnz Hlt) as [Hund Hgone].
  fetch_outcomes env path query this; fold url in Hrun, Hc;
    try (rewrite Hund in Hc; discriminate Hc);
    rewrite Hrun; cbn [fst snd];
    (split; [left; reflexivity|]); try (left; exact Hgone).
  unfold set_events, after_set.
  destruct (cache (after_get env url this)) as [d|] eqn:Hd;
    [|left; exact Hgone].
  right.
  exists data, (ttl_of (cache_control r)),
    (NodeCache._wrap (now_set env) data (ttl_of (cache_control r))).
  split; [right; left; reflexivity|]. split.
  - unfold entry_of. cbn [cache NodeCache.set NodeCache.data].
    apply lookup_insert_eq.
  - unfold NodeCache._wrap. now destruct (ttl_of (cache_control r)).
Qed.

Lemma stale_entry_is_dropped_and_refetched_witness :
  let env := Scenario.serve Scenario.not_found 70000 70100 in
  let this := Warm.client_with (VArr [VStr "old"]) in
  In (NetGet (the_request this (Scenario.api "/brawlers")))
     (_fetch env "/brawlers" None this).2.
Proof.
  intros env this.
  apply (stale_entry_is_dropped_and_refetched env "/brawlers" None this
           (NodeCache.Entry 61200 (VArr [VStr "old"]))).
  - intros c [= <-]. reflexivity.
  - vm_compute. reflexivity.
  - discriminate.
  - vm_compute. reflexivity.
Defined.

(** X10. Expiry causes a re-fetch on a cache that runs with
    [deleteOnExpire] (node-cache's default): after a successful call that
    stored a response under a positive TTL, the clock being a
    non-negative number of milliseconds and the deadline at most 2^53, a
    call with the same path and query made after the deadline sends a
    request, whatever the payload. *)
Theorem expiry_causes_refetch env1 env2 path query this data this1 log1 rq r n :
  is_Some (cache this) -> deletes_expired this ->
  _fetch env1 path query this = (Return data, this1, log1) ->
  In (NetGet rq) log1 -> network env1 rq = Resolved r ->
  ttl_of (cache_control r) = Num n -> 0 < n ->
  0 <= now_set env1 -> now_set env1 + n * 1000 <= 2 ^ 53 ->
  now_set env1 + n * 1000 < now_get env2 ->
  In (NetGet (the_request this1 (request_url this1 path query)))
     (_fetch env2 path query this1).2.
Proof.
  intros Hcache Hdel Hrun Hin Hnet Httl Hn Hclock _ Hlate.
  destruct (successful_call_stores env1 path query this data this1 log1 rq r n
              Hcache Hrun Hin Hnet Httl ltac:(lia)) as [Hentry Hbase].
  rewrite <- (request_url_baseURL this this1 path query Hbase) in Hentry.
  assert (deletes_expired this1) as Hdel1.
  { pose proof (_fetch_keeps_options env1 path query this Hdel) as H.
    now rewrite Hrun in H. }
  apply miss_requests.
  destruct (stale_lookup env2 _ this1 _ Hdel1 Hentry) as [-> _];
    [cbn; lia | cbn; lia | reflexivity].
Qed.

Lemma expiry_causes_refetch_witness :
  let r := Scenario.success (Some "max-age=60") (VArr [VStr "p"]) in
  let env1 := Scenario.serve r 1000 1200 in
  let env2 := Scenario.serve r 61201 61300 in
  let first := _fetch env1 "/brawlers" None Scenario.client0 in
  In (NetGet (the_request first.1.2 (request_url first.1.2 "/brawlers" None)))
     (_fetch env2 "/brawlers" None first.1.2).2.
Proof.
  intros r env1 env2 first.
  apply (expiry_causes_refetch env1 env2 "/brawlers" None Scenario.client0
           (VArr [VStr "p"]) first.1.2 first.2
           (the_request Scenario.client0 (Scenario.api "/brawlers")) r 60).
  - vm_compute. eauto.
  - intros c [= <-]. reflexivity.
  - vm_compute. reflexivity.
  - vm_compute. left. reflexivity.
  - reflexivity.
  - reflexivity.
  - lia.
  - vm_compute. discriminate.
  - vm_compute. discriminate.
  - vm_compute. reflexivity.
Defined.

(** ** A fresh client *)

(** X11. [new Client(token, options)] keeps the token, takes the base URL
    from the options or else the production endpoint, and has a cache
    unless the options say [cache: false]; the cache starts empty, so the
    first call of a fresh client always sends a request. *)
Theorem fresh_client_goes_to_network tok options env path query :
  let this := new_Client tok options in
  token this = tok /\
  baseURL this =
    default "https://api.brawlstars.com/v1" (options ≫= opt_baseURL) /\
  (cache this = None <-> opt_cache <$> options = Some false) /\
  (forall key, entry_of this key = None) /\
  In (NetGet (the_request this (request_url this path query)))
     (_fetch env path query this).2.
Proof.
  intros this.
  assert (forall key, entry_of this key = None) as Hempty.
  { intros key. unfold this, entry_of, new_Client.
    destruct options as [[[] b]|]; cbn; try reflexivity; apply lookup_empty. }
  split; [reflexivity|]. split; [now destruct options as [[c b]|]|].
  split.
  { unfold this, new_Client.
    destruct options as [[[] b]|]; cbn; split; congruence. }
  split; [exact Hempty|].
  apply miss_requests. unfold cached, NodeCache.get.
  specialize (Hempty (request_url this path query)). unfold entry_of in Hempty.
  destruct (cache this) as [d|]; [|reflexivity]. now rewrite Hempty.
Qed.

(** ** An invariant of the cache *)

Lemma prefix_append s t : String.prefix s (s +:+ t) = true.
Proof.
  induction s as [|c s IH]; [now destruct t|].
  change (String c s +:+ t) with (String c (s +:+ t)). cbn.
  destruct (ascii_dec c c); [exact IH|congruence].
Qed.

(** X12. The keys of the cache are URLs under the client's base URL: a
    call keeps that invariant, which a fresh client satisfies. *)
Theorem cache_keys_stay_under_base env path query this :
  keys_under_base this ->
  keys_under_base (_fetch env path query this).1.2.
Proof.
  intros Hinv key e.
  set (url := request_url this path query).
  pose proof (after_get_fields env url this) as [_ Hbase].
  assert (String.prefix (baseURL this) url = true) as Hurl
    by apply prefix_append.
  assert (forall e', entry_of (after_get env url this) key = Some e' ->
            String.prefix (baseURL this) key = true) as Hget.
  { intros e' He'. destruct (decide (key = url)) as [->|Hne]; [exact Hurl|].
    rewrite after_get_entry_ne in He' by exact Hne. eauto. }
  fetch_outcomes env path query this; fold url in Hrun; rewrite Hrun;
    cbn [fst snd]; rewrite ?Hbase; try apply Hget.
  destruct (after_set_fields env url data (ttl_of (cache_control r))
              (after_get env url this)) as [_ ->]. rewrite Hbase.
  destruct (decide (key = url)) as [->|Hne]; [intros _; exact Hurl|].
  rewrite after_set_entry_ne by exact Hne. apply Hget.
Qed.

Lemma cache_keys_stay_under_base_witness :
  let env := Scenario.serve
               (Scenario.success (Some "max-age=60") (VArr [])) 1000 1200 in
  keys_under_base (_fetch env "/brawlers" None Scenario.client0).1.2.
Proof.
  intros env.
  apply (cache_keys_stay_under_base env "/brawlers" None Scenario.client0).
  intros key e He. vm_compute in He. discriminate He.
Defined.

(** ** More on [getPlayer] *)

Lemma obj_get_absent o k : obj_has o k = false -> obj_get o k = VUndefined.
Proof.
  induction o as [|[k' x] o IH]; [reflexivity|]. cbn [obj_has obj_get].
  intros H. apply orb_false_iff in H as [-> H]. now apply IH.
Qed.



(** What [getPlayer] returns once its [_fetch] has returned [data]. *)
Lemma getPlayer_of_fetch cleanTag env tag this data this' l :
  _fetch env ("/players/%23" +:+ cleanTag tag) None this = (Return data, this', l) ->
  getPlayer cleanTag env tag this =
    ((rename_3vs3 data this').1.1, this', l).
Proof.
  intros Hf. rewrite getPlayer_eq, Hf.
  destruct data; cbn; now rewrite ?app_nil_r.
Qed.



(** X14. [getPlayer] asked again for the same tag before the TTL has
    elapsed returns the same object as the first call without sending a
    request: the renaming is applied to the cached body as to the fetched
    one, and a body [getPlayer] could return is never a falsy one. *)
Theorem getPlayer_again_within_ttl
    cleanTag env1 env2 tag this res this1 log1 rq r n :
  is_Some (cache this) ->
  getPlayer cleanTag env1 tag this = (Return res, this1, log1) ->
  In (NetGet rq) log1 -> network env1 rq = Resolved r ->
  ttl_of (cache_control r) = Num n -> 0 < n ->
  now_get env2 < now_set env1 + n * 1000 ->
  getPlayer cleanTag env2 tag this1 = (Return res, this1, []).
Proof.
  intros Hcache Hrun Hin Hnet Httl Hn Hnow.
  set (path := "/players/%23" +:+ cleanTag tag) in *.
  destruct (_fetch env1 path None this) as [[[data|err] this'] l] eqn:Hf.
  2:{ rewrite getPlayer_eq in Hrun. fold path in Hrun. rewrite Hf in Hrun.
      discriminate Hrun. }
  rewrite (getPlayer_of_fetch cleanTag env1 tag this data this' l Hf) in Hrun.
  injection Hrun as Hres <- <-.
  assert (truthy data = true) as Hdata.
  { destruct data; try discriminate Hres; reflexivity. }
  destruct (successful_call_stores env1 path None this data this' l rq r n
              Hcache Hf Hin Hnet Httl ltac:(lia)) as [Hentry Hbase].
  rewrite <- (request_url_baseURL this this' path None Hbase) in Hentry.
  assert (_fetch env2 path None this' = (Return data, this', [])) as Hhit.
  { apply (live_truthy_hit env2 path None this' _
             (entry_is_live env2 this' _ _ data Hentry ltac:(right; lia))).
    exact Hdata. }
  rewrite (getPlayer_of_fetch cleanTag env2 tag this' data this' [] Hhit).
  f_equal. f_equal. rewrite <- Hres. now destruct data.
Qed.

Lemma getPlayer_again_within_ttl_witness :
  let body := VObj [("tag", VStr "#2Q0VVCJ2"); ("3vs3Victories", VNum (Num 7))] in
  let env1 := Scenario.serve (Scenario.success (Some "max-age=60") body) 1000 1200 in
  let env2 := Scenario.serve Scenario.not_found 30000 30100 in
  let first := getPlayer Utils.cleanTag env1 "#2Q0VVCJ2" Scenario.client0 in
  getPlayer Utils.cleanTag env2 "#2Q0VVCJ2" first.1.2 =
    (Return (VObj [("tag", VStr "#2Q0VVCJ2"); ("3vs3Victories", VNum (Num 7));
                   ("x3vs3Victories", VNum (Num 7))]),
     first.1.2, []).
Proof.
  intros body env1 env2 first.
  apply (getPlayer_again_within_ttl Utils.cleanTag env1 env2 "#2Q0VVCJ2"
           Scenario.client0 _ first.1.2 first.2
           (the_request Scenario.client0 (Scenario.api "/players/%232Q0VVCJ2"))
           (Scenario.success (Some "max-age=60") body) 60).
  - vm_compute. eauto.
  - vm_compute. reflexivity.
  - vm_compute. left. reflexivity.
  - reflexivity.
  - reflexivity.
  - lia.
  - vm_compute. reflexivity.
Defined.

(** ** More on the cursor accessors *)

(** X15. Only [before], [after] and [limit] ever reach the query, in that
    order and each only when truthy: any other key of the caller's
    options is dropped, and a call without options builds the empty
    query. *)
Theorem cursor_query_forwards_only_cursor_keys :
  cursor_query None = [] /\
  forall options,
    obj_keys (cursor_query (Some options)) =
      List.filter (fun k => truthy (obj_get options k)) cursor_keys /\
    forall k, ~ In k cursor_keys ->
      obj_has (cursor_query (Some options)) k = false /\
      obj_get (cursor_query (Some options)) k = VUndefined.
Proof.
  split; [reflexivity|]. intros options.
  split; [apply cursor_query_keys|]. intros k Hk.
  assert (obj_has (cursor_query (Some options)) k = false) as Hhas.
  { destruct (obj_has (cursor_query (Some options)) k) eqn:Hhas; [|reflexivity].
    apply obj_has_keys in Hhas. rewrite cursor_query_keys in Hhas.
    apply filter_In in Hhas as [Hin _]. contradiction. }
  split; [exact Hhas|]. now apply obj_get_absent.
Qed.

(** X16. The endpoint of each accessor: every request it sends goes to
    the base URL followed by the accessor's path, built from its
    arguments as they are (a tag after cleaning), and for the accessors
    with cursor parameters by a question mark and the serialized cursor
    query. *)
Theorem accessor_endpoints cleanTag env this rq :
  (forall tag,
     In (NetGet rq) (getPlayerBattlelog cleanTag env tag this).2 ->
     req_url rq =
       baseURL this +:+ "/players/%23" +:+ cleanTag tag +:+ "/battlelog") /\
  (forall tag,
     In (NetGet rq) (getClub cleanTag env tag this).2 ->
     req_url rq = baseURL this +:+ "/clubs/%23" +:+ cleanTag tag) /\
  (forall id,
     In (NetGet rq) (getBrawler env id this).2 ->
     req_url rq = baseURL this +:+ "/brawlers/" +:+ id) /\
  (In (NetGet rq) (getMapRotation env this).2 ->
   req_url rq = baseURL this +:+ "/events/rotation") /\
  (forall country options,
     In (NetGet rq) (getPlayerRankings env country options this).2 ->
     req_url rq =
       baseURL this +:+ ("/rankings/" +:+ country +:+ "/players") +:+ "?" +:+
       stringify (cursor_query options)) /\
  (forall country options,
     In (NetGet rq) (getClubRankings env country options this).2 ->
     req_url rq =
       baseURL this +:+ ("/rankings/" +:+ country +:+ "/clubs") +:+ "?" +:+
       stringify (cursor_query options)) /\
  (forall country brawler options,
     In (NetGet rq) (getBrawlerRankings env country brawler options this).2 ->
     req_url rq =
       baseURL this +:+
       ("/rankings/" +:+ country +:+ "/brawlers/" +:+ brawler) +:+ "?" +:+
       stringify (cursor_query options)) /\
  (forall tag options,
     In (NetGet rq) (getClubMembers cleanTag env tag options this).2 ->
     req_url rq =
       baseURL this +:+ ("/clubs/%23" +:+ cleanTag tag +:+ "/members") +:+
       "?" +:+ stringify (cursor_query options)) /\
  (forall options,
     In (NetGet rq) (getBrawlers env options this).2 ->
     req_url rq =
       baseURL this +:+ "/brawlers" +:+ "?" +:+ stringify (cursor_query options)).
Proof.
  assert (forall path,
            In (NetGet rq) (_fetch env path None this).2 ->
            req_url rq = baseURL this +:+ path) as Hbare.
  { intros path Hin. rewrite (_fetch_request_url env path None this rq Hin).
    unfold request_url. now rewrite append_empty_r. }
  assert (forall path q,
            In (NetGet rq) (_fetch env path (Some q) this).2 ->
            req_url rq = baseURL this +:+ path +:+ "?" +:+ stringify q) as Hquery.
  { intros path q Hin. now rewrite (_fetch_request_url env path _ this rq Hin). }
  repeat split; intros; first [now apply Hbare | now apply Hquery].
Qed.

Lemma accessor_endpoints_witness :
  let env := Scenario.serve Scenario.not_found 1000 1200 in
  let this := Scenario.client0 in
  let rq := the_request this (Scenario.api "/clubs/%23ABC/members?limit=5") in
  req_url rq =
    baseURL this +:+ ("/clubs/%23" +:+ Utils.cleanTag "#ABC" +:+ "/members") +:+
    "?" +:+ stringify (cursor_query (Some [("limit", VNum (Num 5))])).
Proof.
  intros env this rq.
  destruct (accessor_endpoints Utils.cleanTag env this rq)
    as (_ & _ & _ & _ & _ & _ & _ & Hmembers & _).
  apply (Hmembers "#ABC" (Some [("limit", VNum (Num 5))])).
  vm_compute. left. reflexivity.
Defined.

(** X17. A string cursor value cannot inject further parameters: what
    [stringify] writes for it consists of unreserved characters and
    percent escapes only, so it contains no [&], [=], [?], [#], [/] or
    space. *)
Theorem cursor_value_cannot_inject :
  (forall s,
     forallb escaped_char
       (list_ascii_of_string (encodeStringified (VStr s))) = true) /\
  (forall c, escaped_char c = true ->
     c <> "&"%char /\ c <> "="%char /\ c <> "?"%char /\ c <> "#"%char /\
     c <> "/"%char /\ c <> " "%char).
Proof.
  split.
  - assert (forall a b, list_ascii_of_string (a +:+ b) =
                        list_ascii_of_string a ++ list_ascii_of_string b) as Happ.
    { induction a as [|c a IH]; intros b; [reflexivity|].
      change (String c a +:+ b) with (String c (a +:+ b)). cbn. now rewrite IH. }
    assert (forall c, forallb escaped_char
                        (list_ascii_of_string (encodeStr (String c ""))) = true)
      as Hchar.
    { intros [[] [] [] [] [] [] [] []]; vm_compute; reflexivity. }
    assert (forall s, forallb escaped_char
                        (list_ascii_of_string (encodeStr s)) = true) as Hstr.
    { induction s as [|c s IH]; [reflexivity|].
      specialize (Hchar c). cbn [encodeStr] in Hchar |- *.
      rewrite append_empty_r in Hchar.
      rewrite Happ, forallb_app, Hchar. exact IH. }
    intros [|c s]; [reflexivity|]. apply Hstr.
  - intros c Hc.
    repeat split; intros ->; vm_compute in Hc; discriminate Hc.
Qed.

(** ** A negative TTL *)

(** X18. On a cache that runs with [deleteOnExpire] (node-cache's
    default), a response stored under a negative TTL is never served: its
    deadline lies before the moment it was stored, so every later call
    with the same path and query sends a request again. The clock is a
    number of milliseconds between 0 and 2^53, the TTL in milliseconds at
    least -2^53, and the deadline not 0, which node-cache reads as no
    deadline. *)
Theorem negative_ttl_is_never_served
    env1 env2 path query this data this1 log1 rq r n :
  is_Some (cache this) -> deletes_expired this ->
  _fetch env1 path query this = (Return data, this1, log1) ->
  In (NetGet rq) log1 -> network env1 rq = Resolved r ->
  ttl_of (cache_control r) = Num n -> n < 0 ->
  - 2 ^ 53 <= n * 1000 -> 0 <= now_set env1 <= 2 ^ 53 ->
  now_set env1 + n * 1000 <> 0 ->
  now_set env1 <= now_get env2 ->
  In (NetGet (the_request this1 (request_url this1 path query)))
     (_fetch env2 path query this1).2.
Proof.
  intros Hcache Hdel Hrun Hin Hnet Httl Hn _ _ Hnz Hlater.
  destruct (successful_call_stores env1 path query this data this1 log1 rq r n
              Hcache Hrun Hin Hnet Httl ltac:(lia)) as [Hentry Hbase].
  rewrite <- (request_url_baseURL this this1 path query Hbase) in Hentry.
  assert (deletes_expired this1) as Hdel1.
  { pose proof (_fetch_keeps_options env1 path query this Hdel) as H.
    now rewrite Hrun in H. }
  apply miss_requests.
  destruct (stale_lookup env2 _ this1 _ Hdel1 Hentry) as [-> _];
    [exact Hnz | cbn; lia | reflexivity].
Qed.

Lemma negative_ttl_is_never_served_witness :
  let r := Scenario.success (Some "max-age=-5") (VArr [VStr "p"]) in
  let env1 := Scenario.serve r 10000 10200 in
  let env2 := Scenario.serve r 10200 10300 in
  let first := _fetch env1 "/brawlers" None Scenario.client0 in
  In (NetGet (the_request first.1.2 (request_url first.1.2 "/brawlers" None)))
     (_fetch env2 "/brawlers" None first.1.2).2.
Proof.
  intros r env1 env2 first.
  apply (negative_ttl_is_never_served env1 env2 "/brawlers" None
           Scenario.client0 (VArr [VStr "p"]) first.1.2 first.2
           (the_request Scenario.client0 (Scenario.api "/brawlers")) r (-5)).
  - vm_compute. eauto.
  - intros c [= <-]. reflexivity.
  - vm_compute. reflexivity.
  - vm_compute. left. reflexivity.
  - reflexivity.
  - reflexivity.
  - lia.
  - vm_compute. discriminate.
  - vm_compute. split; discriminate.
  - vm_compute. discriminate.
  - vm_compute. discriminate.
Defined.

(** ** A cache that keeps expired entries *)

(** X19. On a client built with [cacheOptions: { deleteOnExpire: false }]
    an entry is served however long ago its deadline passed: when the
    entry under the request URL has a truthy payload, the call returns
    it, sends and stores nothing and leaves the client unchanged. *)
Theorem kept_entry_is_served_after_expiry env path query this e :
  keeps_expired this ->
  entry_of this (request_url this path query) = Some e ->
  truthy (NodeCache.v e) = true ->
  _fetch env path query this = (Return (NodeCache.v e), this, []).
Proof.
  intros Hkeep Hentry Hdata.
  apply (live_truthy_hit env path query this e); [|exact Hdata].
  now apply kept_entry_is_live.
Qed.

Lemma kept_entry_is_served_after_expiry_witness :
  let keep := Some {| opt_cache := true;
                      opt_cacheOptions :=
                        Some {| NodeCache.deleteOnExpire := false |};
                      opt_baseURL := None |} in
  let r := Scenario.success (Some "max-age=60") (VArr [VStr "p"]) in
  let first := _fetch (Scenario.serve r 1000 1200) "/brawlers" None
                 (new_Client "token" keep) in
  _fetch (Scenario.serve Scenario.not_found 900000 900100) "/brawlers" None
    first.1.2 = (Return (VArr [VStr "p"]), first.1.2, []).
Proof.
  intros keep r first.
  apply (kept_entry_is_served_after_expiry
           (Scenario.serve Scenario.not_found 900000 900100) "/brawlers" None
           first.1.2 (NodeCache.Entry 61200 (VArr [VStr "p"]))).
  - intros c Hc. vm_compute in Hc. injection Hc as <-. reflexivity.
  - vm_compute. reflexivity.
  - reflexivity.
Defined.
